(** * pqlbench: a shallow embedding of [main.go]

    The command line tool replays a list of PromQL queries against a
    Promscale endpoint through a bounded number of concurrent workers and
    prints latency statistics.  This file embeds the Go code of [main.go]
    in Rocq and states its properties.

    Conventions.
    - Go's [int64] and [int] (64-bit) are [Z] with the wrap-around of every
      arithmetic operation written out ([Int64.wrap]).
    - Go's [float64] is IEEE 754 binary64 with round-to-nearest-even; see
      [Float64].
    - A Go function that can panic returns an [outcome]; one that can
      also end the process returns a [process].
    - Pointers to shared structures ([*Client], [*url.URL]) become explicit
      state passing: a function that writes through the pointer returns
      the updated structure.
    - The network, the clock, the time zone and the file system are an
      environment [Env]; the goroutines of [benchmark] are a transition
      system run under a schedule. *)

From Stdlib Require Import ZArith List String Ascii Bool Lia.
From Stdlib Require Import Sorting.Permutation Sorting.Sorted.
From Stdlib Require Floats.SpecFloat.
Import ListNotations.

Local Open Scope Z_scope.

(** ** Machine integers *)

Module Int64.

Definition min_int : Z := - 2 ^ 63.
Definition max_int : Z := 2 ^ 63 - 1.

(** Two's complement reduction of a mathematical integer to [int64]. *)
Definition wrap (z : Z) : Z := (z + 2 ^ 63) mod 2 ^ 64 - 2 ^ 63.

Definition add (a b : Z) : Z := wrap (a + b).
Definition sub (a b : Z) : Z := wrap (a - b).
Definition mul (a b : Z) : Z := wrap (a * b).

Definition in_range (z : Z) : Prop := min_int <= z <= max_int.

End Int64.

(** ** Binary64 floating point

    A finite binary64 number is an integer multiple of [2^-1074] (the
    smallest subnormal).  [Fin n] stands for the real number
    [n * 2^-1074]; every operation computes the exact result and rounds it
    to 53 significant bits, ties to even, which is how IEEE 754 defines
    the operations.  The two zeros of IEEE 754 are identified: nothing in
    [main.go] divides by a computed zero or inspects the sign of one. *)

Module Float64.

Inductive t : Type :=
| Fin (n : Z)
| PInf
| NInf
| NaN.

(** Number of units [2^-1074] in [1.0]. *)
Definition one_units : Z := 2 ^ 1074.

(** First magnitude, in units, that no longer rounds to a finite number:
    [2^1024]. *)
Definition overflow_units : Z := 2 ^ 2098.

(** Nearest integer to [n / d], ties to even ([0 <= n], [0 < d]). *)
Definition rne_div (n d : Z) : Z :=
  let q := n / d in
  let r := n mod d in
  match 2 * r ?= d with
  | Lt => q
  | Gt => q + 1
  | Eq => if Z.even q then q else q + 1
  end.

(** Spacing, as a power of two, of the binary64 numbers around the
    magnitude [m] (in units): 53 significant bits, never finer than one
    unit. *)
Definition quantum_exp (m : Z) : Z := Z.max (Z.log2 m - 52) 0.

(** Round the magnitude [n / d] (in units) to the binary64 grid. *)
Definition round_mag (n d : Z) : Z :=
  let s := quantum_exp (n / d) in
  rne_div n (d * 2 ^ s) * 2 ^ s.

(** Round the rational [n / d] (in units, [0 < d]) to binary64. *)
Definition round (n d : Z) : t :=
  let m := round_mag (Z.abs n) d in
  if overflow_units <=? m
  then (if n <? 0 then NInf else PInf)
  else Fin (Z.sgn n * m).

(** [float64(x)] for an integer [x]. *)
Definition of_int (z : Z) : t := round (z * one_units) 1.

Definition add (x y : t) : t :=
  match x, y with
  | NaN, _ | _, NaN => NaN
  | Fin a, Fin b => round (a + b) 1
  | PInf, NInf | NInf, PInf => NaN
  | PInf, _ | _, PInf => PInf
  | NInf, _ | _, NInf => NInf
  end.

Definition div (x y : t) : t :=
  match x, y with
  | NaN, _ | _, NaN => NaN
  | Fin a, Fin b =>
      if b =? 0
      then (if a =? 0 then NaN else if 0 <? a then PInf else NInf)
      else round (Z.sgn b * a * one_units) (Z.abs b)
  | Fin _, _ => Fin 0
  | PInf, Fin b => if b <? 0 then NInf else PInf
  | NInf, Fin b => if b <? 0 then PInf else NInf
  | _, _ => NaN
  end.

(** The float [x] is exactly the rational [num / den]. *)
Definition is_ratio (x : t) (num den : Z) : Prop :=
  match x with
  | Fin n => n * den = num * one_units
  | _ => False
  end.

(** Comparison of an integer with the real value of a float. *)
Definition int_le (z : Z) (x : t) : Prop :=
  match x with
  | Fin n => z * one_units <= n
  | PInf => True
  | _ => False
  end.

Definition le_int (x : t) (z : Z) : Prop :=
  match x with
  | Fin n => n <= z * one_units
  | NInf => True
  | _ => False
  end.

(** The magnitude [b] (in units) lies on the binary64 grid. *)
Definition representable (b : Z) : Prop :=
  0 <= b /\ b mod 2 ^ quantum_exp b = 0.

(** Translation to the Standard Library's specification of IEEE 754
    numbers, used to cross-check the operations above. *)
Definition to_spec (x : t) : SpecFloat.spec_float :=
  match x with
  | Fin n => SpecFloat.binary_normalize 53 1024 n (-1074) false
  | PInf => SpecFloat.S754_infinity false
  | NInf => SpecFloat.S754_infinity true
  | NaN => SpecFloat.S754_nan
  end.

End Float64.

(** ** Panics and exits

    A Go function that can panic returns an [outcome]; one that can also
    end the process through [os.Exit] (directly or inside [log.Fatalf])
    returns a [process]. *)

Inductive panic : Type :=
| IndexOutOfRange (index : Z) (len : Z)
| NilDereference
| MakechanSizeOutOfRange.

Inductive outcome (A : Type) : Type :=
| Ok (a : A)
| Panic (p : panic).

Arguments Ok {A} a.
Arguments Panic {A} p.

Definition bind {A B : Type} (m : outcome A) (k : A -> outcome B) : outcome B :=
  match m with
  | Ok a => k a
  | Panic p => Panic p
  end.

Notation "x <- m ;; k" := (bind m (fun x => k))
  (at level 61, m at next level, right associativity).

Inductive process (A : Type) : Type :=
| Return (a : A)
| Crash (p : panic)
| Exited (code : Z).

Arguments Return {A} a.
Arguments Crash {A} p.
Arguments Exited {A} code.

Definition run_outcome {A : Type} (m : outcome A) : process A :=
  match m with
  | Ok a => Return a
  | Panic p => Crash p
  end.

(** Indexing a slice: [s[i]]. *)
Definition index {A : Type} (s : list A) (i : Z) : outcome A :=
  if (i <? 0) || (Z.of_nat (List.length s) <=? i)
  then Panic (IndexOutOfRange i (Z.of_nat (List.length s)))
  else match nth_error s (Z.to_nat i) with
       | Some a => Ok a
       | None => Panic (IndexOutOfRange i (Z.of_nat (List.length s)))
       end.

(** ** Data model *)

(** [type Query struct] *)
Record Query : Type := mkQuery {
  q_Query : string;
  q_Start : Z;
  q_End : Z;
  q_Step : Z
}.

(** Errors, kept structured instead of formatted. *)
Inductive error : Type :=
| ErrTransport (msg : string)
    (* whatever [HttpClient.Get] returns *)
| ErrSending (cause : error)
    (* "getHTTPQuery() sending request to server. error=%v" *)
| ErrStatus (code : Z)
    (* "getHTTPQuery() unexpected response status code: %d" *)
| ErrQuery (q : Query) (cause : error)
    (* "query=%v, error=%v" *)
| ErrSyntax (fn : string) (s : string)
    (* strconv.NumError with ErrSyntax *)
| ErrRange (fn : string) (s : string)
    (* strconv.NumError with ErrRange *)
| ErrRequiredInput.
    (* "required input file" *)

(** [type Stats struct] *)
Record Stats : Type := mkStats {
  Average : Float64.t;
  Errors : list error;
  Fastest : Z;
  Median : Float64.t;
  Processed : Z;
  Slowest : Z;
  Total : Z
}.

(** ** Statistics *)

(** [sort.Slice(timeDiffs, func(i, j int) bool { return timeDiffs[i] < timeDiffs[j] })]:
    the slice is rearranged into ascending order.  For integers compared
    with [<] the result does not depend on the algorithm ([sort_Slice_unique]
    below), so an insertion sort stands for the library's. *)
Fixpoint insert_sorted (x : Z) (l : list Z) : list Z :=
  match l with
  | [] => [x]
  | y :: l' => if x <=? y then x :: l else y :: insert_sorted x l'
  end.

Definition sort_Slice (l : list Z) : list Z :=
  fold_right insert_sorted [] l.

(** The variables of the loop of [getQueriesStats]. *)
Record loop_state : Type := mkLoop {
  l_fastest : Z;
  l_slowest : Z;
  l_average : Float64.t;
  l_timeDiffs : list Z
}.

Definition timeDiff (q : Query) : Z := Int64.sub (q_End q) (q_Start q).

(** One iteration of [for i := range queryList]. *)
Definition loop_body (st : loop_state) (q : Query) : loop_state :=
  let d := timeDiff q in
  {| l_fastest := if d <? l_fastest st then d else l_fastest st;
     l_slowest := if l_slowest st <? d then d else l_slowest st;
     l_average := Float64.add (l_average st) (Float64.of_int d);
     l_timeDiffs := l_timeDiffs st ++ [d] |}.

Definition loop_init : loop_state :=
  {| l_fastest := Int64.max_int;
     l_slowest := 0;
     l_average := Float64.Fin 0;
     l_timeDiffs := [] |}.

(** The median block of [getQueriesStats], on the sorted slice. *)
Definition median_of (sorted : list Z) : outcome Float64.t :=
  let len := Z.of_nat (List.length sorted) in
  let mNumber := len / 2 in
  if negb (len mod 2 =? 0)
  then
    m <- index sorted mNumber ;;
    Ok (Float64.of_int m)
  else
    a <- index sorted (mNumber - 1) ;;
    b <- index sorted mNumber ;;
    Ok (Float64.div (Float64.of_int (Int64.add a b)) (Float64.of_int 2)).

(** [func getQueriesStats(queryList []Query) *Stats] *)
Definition getQueriesStats (queryList : list Query) : outcome Stats :=
  let st := fold_left loop_body queryList loop_init in
  let timeDiffs := sort_Slice (l_timeDiffs st) in
  median <- median_of timeDiffs ;;
  let average :=
    Float64.div (l_average st)
                (Float64.of_int (Z.of_nat (List.length queryList))) in
  Ok {| Average := average;
        Errors := [];
        Fastest := l_fastest st;
        Median := median;
        Processed := 0;
        Slowest := l_slowest st;
        Total := 0 |}.


(** ** Strings

    Go strings are byte sequences; [string] is a list of [ascii] bytes. *)

Local Open Scope string_scope.
Local Open Scope Z_scope.

Definition byte_code (c : ascii) : Z := Z.of_N (N_of_ascii c).
Definition byte_of (z : Z) : ascii := ascii_of_N (Z.to_N z).

Fixpoint contains_byte (cutset : string) (c : ascii) : bool :=
  match cutset with
  | EmptyString => false
  | String d cutset' => Ascii.eqb c d || contains_byte cutset' c
  end.

Fixpoint string_rev (s : string) : string :=
  match s with
  | EmptyString => EmptyString
  | String c s' => string_rev s' ++ String c EmptyString
  end.

(** [strings.TrimLeft(s, cutset)]: [s] without its leading bytes that occur
    in [cutset].  (The library works on UTF-8 code points; for a cutset
    of ASCII characters that removes the same bytes.) *)
Fixpoint TrimLeft (s cutset : string) : string :=
  match s with
  | EmptyString => EmptyString
  | String c s' => if contains_byte cutset c then TrimLeft s' cutset else s
  end.

(** [strings.TrimRight(s, cutset)] *)
Definition TrimRight (s cutset : string) : string :=
  string_rev (TrimLeft (string_rev s) cutset).

(** [strings.TrimPrefix(s, prefix)], which [main.go] does not call; it is
    what removes a prefix and nothing more. *)
Definition TrimPrefix (s pre : string) : string :=
  if String.prefix pre s
  then String.substring (String.length pre)
                        (String.length s - String.length pre)%nat s
  else s.

(** Decimal digits of a non-negative integer, most significant first. *)
Fixpoint digits_of (fuel : nat) (n : Z) (acc : string) : string :=
  let acc' := String (byte_of (48 + n mod 10)) acc in
  match fuel with
  | O => acc'
  | S fuel' => if n <? 10 then acc' else digits_of fuel' (n / 10) acc'
  end.

(** [fmt.Sprintf("%d", z)] *)
Definition itoa (z : Z) : string :=
  if z <? 0
  then "-" ++ digits_of (Z.to_nat (Z.log2 (- z))) (- z) ""
  else digits_of (Z.to_nat (Z.log2 z)) z "".

(** A non-negative integer below [10^width] in exactly [width + 1]
    digits, zero padded. *)
Fixpoint padded (width : nat) (n : Z) (acc : string) : string :=
  let acc' := String (byte_of (48 + n mod 10)) acc in
  match width with
  | O => acc'
  | S width' => padded width' (n / 10) acc'
  end.

(** *** [strconv] *)

Inductive num_error : Type := NumSyntax | NumRange.

(** The loop of [strconv.ParseUint(s, 10, 64)]. *)
Fixpoint ParseUint_loop (s : string) (n : Z) : num_error + Z :=
  match s with
  | EmptyString => inr n
  | String c s' =>
      let b := byte_code c in
      if negb ((48 <=? b) && (b <=? 57)) then inl NumSyntax
      else if (2 ^ 64 - 1) / 10 + 1 <=? n then inl NumRange
      else
        let n1 := n * 10 + (b - 48) in
        if 2 ^ 64 - 1 <? n1 then inl NumRange
        else ParseUint_loop s' n1
  end.

Definition ParseUint (s : string) : num_error + Z :=
  match s with
  | EmptyString => inl NumSyntax
  | _ => ParseUint_loop s 0
  end.

Definition strconv_error (fn s : string) (e : num_error) : error :=
  match e with
  | NumSyntax => ErrSyntax fn s
  | NumRange => ErrRange fn s
  end.

(** [strconv.ParseInt(s, 10, 64)], with the name [fn] the error carries. *)
Definition ParseInt_as (fn : string) (s0 : string) : error + Z :=
  match s0 with
  | EmptyString => inl (ErrSyntax fn s0)
  | String c rest =>
      let neg := Ascii.eqb c "-" in
      let s := if Ascii.eqb c "+" || neg then rest else s0 in
      match ParseUint s with
      | inl NumSyntax => inl (ErrSyntax fn s0)
      | inl NumRange => inl (ErrRange fn s0)
      | inr un =>
          if negb neg && (2 ^ 63 <=? un) then inl (ErrRange fn s0)
          else if neg && (2 ^ 63 <? un) then inl (ErrRange fn s0)
          else inr (if neg then - un else un)
      end
  end.

Definition ParseInt (s : string) : error + Z := ParseInt_as "ParseInt" s.

(** [strconv.Atoi(s)] on a 64-bit platform. *)
Definition Atoi (s : string) : error + Z := ParseInt_as "Atoi" s.

(** ** The HTTP client *)

(** [url.URL], the fields this program sets or reads. *)
Record URL : Type := mkURL {
  Scheme : string;
  Host : string;
  Path : string;
  RawQuery : string
}.

(** [*http.Response], the field this program reads. *)
Record http_Response : Type := mkHTTPResponse {
  StatusCode : Z
}.

(** What [Get] hands back: [(resp *http.Response, err error)]; either
    component may be nil. *)
Definition get_result : Type := option http_Response * option error.

(** The implementations of [type HttpClient interface] in the repository:
    the standard client built by [newHTTPClient] and the test double
    [ClientMock]. *)
Inductive HttpClient : Type :=
| http_Client (Timeout : Z)
| ClientMock.

(** [type Client struct]; [URL] is a pointer in Go, so the record is
    threaded through every function that writes to it. *)
Record Client : Type := mkClient {
  c_Client : HttpClient;
  c_URL : URL;
  c_Version : string
}.

(** [time.Second], in nanoseconds. *)
Definition time_Second : Z := 1000000000.
Definition time_Millisecond : Z := 1000000.

(** [schemeRegex = ^((http[s]?|ftp):\/)\/]: anchored at the start, the
    expression matches exactly one of the three prefixes below, and
    [FindString] returns the matched text. *)
Definition schemeRegex_FindString (text : string) : string :=
  if String.prefix "https://" text then "https://"
  else if String.prefix "http://" text then "http://"
  else if String.prefix "ftp://" text then "ftp://"
  else "".

(** [func getScheme(text string) *string] *)
Definition getScheme (text : string) : option string :=
  let m := schemeRegex_FindString text in
  if negb (String.eqb m "") then Some m else None.

(** [func newHTTPClient(host string) *Client] *)
Definition newHTTPClient (host : string) : Client :=
  let '(host, scheme) :=
    match getScheme host with
    | Some s => (TrimLeft host s, TrimRight s "://")
    | None => (host, "https")
    end in
  {| c_Client := http_Client time_Second;
     c_URL := {| Scheme := scheme; Host := host; Path := ""; RawQuery := "" |};
     c_Version := "v1" |}.

(** ** Building the request

    The pieces of [net/url], [time] and [fmt] that [getHTTPQuery] calls,
    modelled by what they return. *)

Definition hex_digit (n : Z) : ascii :=
  if n <? 10 then byte_of (48 + n) else byte_of (55 + n).

(** [shouldEscape(c, encodeQueryComponent)] of [net/url]: letters, digits
    and [-_.~] are kept. *)
Definition unreserved (c : ascii) : bool :=
  let b := byte_code c in
  ((97 <=? b) && (b <=? 122)) || ((65 <=? b) && (b <=? 90))
  || ((48 <=? b) && (b <=? 57))
  || (b =? 45) || (b =? 95) || (b =? 46) || (b =? 126).

(** [url.QueryEscape(s)] *)
Fixpoint QueryEscape (s : string) : string :=
  match s with
  | EmptyString => EmptyString
  | String c s' =>
      if unreserved c then String c (QueryEscape s')
      else if byte_code c =? 32 then String "+" (QueryEscape s')
      else String "%" (String (hex_digit (byte_code c / 16))
                      (String (hex_digit (byte_code c mod 16))
                              (QueryEscape s')))
  end.

(** [url.Values] with one value per key, as [getHTTPQuery] fills it. *)
Definition Values : Type := list (string * string).

Definition Values_Add (v : Values) (key value : string) : Values :=
  (v ++ [(key, value)])%list.

Fixpoint insert_by_key (kv : string * string) (l : Values) : Values :=
  match l with
  | [] => [kv]
  | kv' :: l' =>
      if String.leb (fst kv) (fst kv') then kv :: l
      else kv' :: insert_by_key kv l'
  end.

Fixpoint join_pairs (l : Values) : string :=
  match l with
  | [] => ""
  | (k, v) :: l' =>
      let kv := QueryEscape k ++ "=" ++ QueryEscape v in
      match l' with
      | [] => kv
      | _ => kv ++ "&" ++ join_pairs l'
      end
  end.

(** [Values.Encode()]: "key=value" pairs sorted by key, joined by [&]. *)
Definition Values_Encode (v : Values) : string :=
  join_pairs (fold_right insert_by_key [] v).

(** Proleptic Gregorian date of a day number counted from 1970-01-01. *)
Definition civil_from_days (days : Z) : Z * Z * Z :=
  let z := days + 719468 in
  let era := z / 146097 in
  let doe := z - era * 146097 in
  let yoe := (doe - doe / 1460 + doe / 36524 - doe / 146096) / 365 in
  let doy := doe - (365 * yoe + yoe / 4 - yoe / 100) in
  let mp := (5 * doy + 2) / 153 in
  let d := doy - (153 * mp + 2) / 5 + 1 in
  let m := if mp <? 10 then mp + 3 else mp - 9 in
  let y := yoe + era * 400 + (if m <=? 2 then 1 else 0) in
  (y, m, d).

(** [time.Unix(0, nsec).Format(time.RFC3339)] in a zone [offset] seconds
    east of UTC.  Every instant an [int64] of nanoseconds can name lies in
    the years 1677 to 2262, so the year has four digits. *)
Definition Format_RFC3339 (nsec : Z) (offset : Z) : string :=
  let sec := nsec / time_Second in
  let loc := sec + offset in
  let '(y, m, d) := civil_from_days (loc / 86400) in
  let sod := loc mod 86400 in
  let zone := Z.quot offset 60 in
  padded 3 y "" ++ "-" ++ padded 1 m "" ++ "-" ++ padded 1 d "" ++ "T"
  ++ padded 1 (sod / 3600) "" ++ ":" ++ padded 1 (sod / 60 mod 60) ""
  ++ ":" ++ padded 1 (sod mod 60) ""
  ++ (if offset =? 0 then "Z"
      else (if zone <? 0 then "-" else "+")
           ++ padded 1 (Z.abs zone / 60) "" ++ ":"
           ++ padded 1 (Z.abs zone mod 60) "").

(** [URL.String()] for a URL with these four fields; the percent-escaping
    the library applies to unusual bytes of the host and the path is left
    out (no host or path that this program builds from a plain host name
    needs it). *)
Definition URL_String (u : URL) : string :=
  (if String.eqb (Scheme u) "" then "" else Scheme u ++ ":")
  ++ (if String.eqb (Scheme u) "" && String.eqb (Host u) "" then ""
      else (if String.eqb (Host u) "" && String.eqb (Path u) "" then ""
            else "//") ++ Host u)
  ++ (if negb (String.eqb (Path u) "")
         && negb (String.prefix "/" (Path u))
         && negb (String.eqb (Host u) "")
      then "/" else "")
  ++ Path u
  ++ (if String.eqb (RawQuery u) "" then "" else "?" ++ RawQuery u).

(** ** The environment

    Everything the program observes from outside: the replies of the
    network, the clock, the local time zone and the file system.  The
    [World] records what the program has done to it so far. *)

Record Env : Type := mkEnv {
  (** reply of the server to the [k]-th request (counted from 0) *)
  reply : nat -> string -> get_result;
  (** the [k]-th reading of [time.Now()], nanoseconds since the epoch *)
  now : nat -> Z;
  (** offset of the local zone, seconds east of UTC, at a Unix time *)
  zone_offset : Z -> Z;
  (** [os.Open]: contents of the file, if it can be opened *)
  open_file : string -> option string
}.

Record World : Type := mkWorld {
  requests : list string;   (* URLs sent through [Get], oldest first *)
  clock_reads : nat         (* number of calls of [time.Now()] *)
}.

Definition world0 : World := {| requests := []; clock_reads := O |}.

(** [time.Now()] *)
Definition time_Now (env : Env) (w : World) : Z * World :=
  (now env (clock_reads w),
   {| requests := requests w; clock_reads := S (clock_reads w) |}).

(** A request that has left and whose reply has not yet arrived. *)
Record pending_request : Type := mkPending {
  request_number : nat;     (* how many requests were sent before it *)
  request_url : string
}.

(** [c.Client.Get(url)] blocks between the departure of the request and
    the arrival of its reply; the two halves are separate so that other
    goroutines can run in between. *)
Definition Get_send (url : string) (w : World) : pending_request * World :=
  ({| request_number := List.length (requests w); request_url := url |},
   {| requests := (requests w ++ [url])%list;
      clock_reads := clock_reads w |}).

(** Dynamic dispatch on the implementation of the interface. *)
Definition Get_receive (env : Env) (cl : HttpClient) (r : pending_request)
  : get_result :=
  match cl with
  | http_Client _ => reply env (request_number r) (request_url r)
  | ClientMock => (Some {| StatusCode := 200 |}, None)
  end.

Definition Get (env : Env) (cl : HttpClient) (url : string) (w : World)
  : get_result * World :=
  let '(r, w') := Get_send url w in
  (Get_receive env cl r, w').

(** [type Response struct]: the reply with the measured window; times in
    nanoseconds since the epoch. *)
Record Response : Type := mkResponse {
  r_Response : http_Response;
  Timestamp_Start : Z;
  Timestamp_End : Z
}.

(** [Time.UnixMilli()] *)
Definition UnixMilli (t : Z) : Z := t / time_Millisecond.

(** The pair of results of [getHTTPQuery], a response and an error: it returns
    either [(nil, err)] or [(resp, nil)]. *)
Inductive call_result : Type :=
| Success (r : Response)
| Failure (e : error).

(** A call of [getHTTPQuery] that waits inside [Get]. *)
Record open_call : Type := mkOpenCall {
  oc_request : pending_request;
  oc_start : Z                  (* [start := time.Now()] *)
}.

(** [getHTTPQuery] from its first statement until [Get] has sent the
    request.  The writes to [c.URL.Path] and [c.URL.RawQuery] go through
    the pointer that the client holds, so the client after them is
    returned too. *)
Definition getHTTPQuery_begin (env : Env) (c : Client) (q : Query) (w : World)
  : open_call * Client * World :=
  let path := "/api/" ++ c_Version c ++ "/query_range" in
  let tz t := zone_offset env (t / time_Second) in
  let t_start := Int64.mul (q_Start q) time_Millisecond in
  let t_end := Int64.mul (q_End q) time_Millisecond in
  let params := Values_Add [] "query" (q_Query q) in
  let params := Values_Add params "start" (Format_RFC3339 t_start (tz t_start)) in
  let params := Values_Add params "end" (Format_RFC3339 t_end (tz t_end)) in
  let params := Values_Add params "step" (itoa (q_Step q)) in
  let u := {| Scheme := Scheme (c_URL c); Host := Host (c_URL c);
              Path := path; RawQuery := Values_Encode params |} in
  let c' := {| c_Client := c_Client c; c_URL := u; c_Version := c_Version c |} in
  let '(start, w1) := time_Now env w in
  let '(r, w2) := Get_send (URL_String u) w1 in
  ({| oc_request := r; oc_start := start |}, c', w2).

(** [getHTTPQuery] from the return of [Get] on. *)
Definition getHTTPQuery_end (env : Env) (cl : HttpClient) (oc : open_call)
    (w : World) : outcome call_result * World :=
  let '(resp, err) := Get_receive env cl (oc_request oc) in
  let '(end_, w') := time_Now env w in
  let res :=
    match err with
    | Some e => Ok (Failure (ErrSending e))
    | None =>
        match resp with
        | None => Panic NilDereference   (* [resp.StatusCode] on a nil reply *)
        | Some r =>
            if negb (StatusCode r =? 200)
            then Ok (Failure (ErrStatus (StatusCode r)))
            else Ok (Success {| r_Response := r;
                                Timestamp_Start := oc_start oc;
                                Timestamp_End := end_ |})
        end
    end in
  (res, w').

(** [func (c *Client) getHTTPQuery(q *Query)], run without interruption. *)
Definition getHTTPQuery (env : Env) (c : Client) (q : Query) (w : World)
  : outcome call_result * Client * World :=
  let '(oc, c', w1) := getHTTPQuery_begin env c q w in
  let '(res, w2) := getHTTPQuery_end env (c_Client c') oc w1 in
  (res, c', w2).

(** ** Reading the input file *)

(** A reader for pipe-separated records without quoted fields: lines end
    in a line feed, empty lines are skipped, and every record must have as
    many fields as the first one.  It stands for
    [csv.Reader.ReadAll] with [Comma = '|'] on such input. *)
Fixpoint split_on (sep : ascii) (s : string) (cur : string) : list string :=
  match s with
  | EmptyString => [string_rev cur]
  | String c s' =>
      if Ascii.eqb c sep then string_rev cur :: split_on sep s' ""
      else split_on sep s' (String c cur)
  end.

Definition csv_plain (contents : string) : option (list (list string)) :=
  let lines :=
    filter (fun l => negb (String.eqb l ""))
           (split_on (byte_of 10) contents "") in
  let records := map (fun l => split_on "|" l "") lines in
  match records with
  | [] => Some []
  | first :: _ =>
      if forallb (fun r => Nat.eqb (List.length r) (List.length first)) records
      then Some records
      else None
  end.

Section ReadFile.

(** [csvReader.ReadAll()] for the reader configured in [readFile];
    [None] when the library reports an error. *)
Variable csv_ReadAll : string -> option (list (list string)).

(** The body of the loop [for i, line := range csvRecords], up to the
    assignment to [queries[i]]; [inl err] is the early [return nil, err]. *)
Definition parse_line (line : list string) : outcome (error + Query) :=
  f1 <- index line 1 ;;
  match ParseInt f1 with
  | inl e => Ok (inl e)
  | inr start =>
      f2 <- index line 2 ;;
      match ParseInt f2 with
      | inl e => Ok (inl e)
      | inr end_ =>
          f3 <- index line 3 ;;
          match Atoi f3 with
          | inl e => Ok (inl e)
          | inr step =>
              f0 <- index line 0 ;;
              Ok (inr {| q_Query := f0; q_Start := start;
                         q_End := end_; q_Step := step |})
          end
      end
  end.

Fixpoint parse_lines (records : list (list string)) (queries : list Query)
  : outcome (list Query * option error) :=
  match records with
  | [] => Ok (queries, None)
  | line :: records' =>
      r <- parse_line line ;;
      match r with
      | inl e => Ok ([], Some e)
      | inr q => parse_lines records' (queries ++ [q])%list
      end
  end.

(** [func readFile(file io.Reader) ([]Query, error)] *)
Definition readFile (contents : string) : process (list Query * option error) :=
  match csv_ReadAll contents with
  | None => Exited 1                    (* [log.Fatalf] *)
  | Some csvRecords => run_outcome (parse_lines csvRecords [])
  end.

End ReadFile.

(** ** The dispatcher

    [benchmark] starts one goroutine per query.  The goroutines and the
    main goroutine are modelled as a transition system over a shared
    state; a schedule picks which goroutine takes the next step.  Each
    step is one statement of the goroutine body, executed atomically;
    the call of [getHTTPQuery] takes two steps, one until its request has
    left and one from the arrival of the reply.  (The appends to the two
    shared slices are atomic here; Go does not promise that.) *)

(** Where a goroutine stands. *)
Inductive pc : Type :=
| Pending
    (* started; has not yet sent on [workers] *)
| Acquired
    (* sent on [workers]; [getHTTPQuery] not yet called *)
| Calling (oc : open_call)
    (* inside [getHTTPQuery]: the request has left, the reply has not
       arrived *)
| Returned (r : call_result)
    (* [getHTTPQuery] has returned; result not yet handled *)
| Unwinding (p : option panic)
    (* body left, normally or by the panic [p]; the deferred function
       has not yet received from [workers] *)
| Released (p : option panic)
    (* deferred function has received from [workers]; [wg.Add(-1)] pending *)
| Finished (p : option panic).
    (* deferred function done; with a panic the runtime now ends the process *)

Record Bench : Type := mkBench {
  b_client : Client;            (* the shared [*c] *)
  b_world : World;
  b_workers : Z;                (* [len(workers)]: permits taken *)
  b_wg : Z;                     (* counter of the wait group *)
  b_errorList : list error;
  b_queryList : list Query;
  b_goroutines : list (Query * pc);   (* parameter [q] and position *)
  b_start : Z;
  b_crashed : option panic
}.

Definition set_goroutine (i : nat) (g : Query * pc) (s : Bench)
  : list (Query * pc) :=
  firstn i (b_goroutines s) ++ g :: skipn (S i) (b_goroutines s).

Section Dispatcher.

Variable env : Env.
(** [cap(workers)], that is [maxConcurrentWorkers] *)
Variable capacity : Z.

(** One step of goroutine [i]; [None] when it cannot move (blocked on
    the channel, ended, or the process has crashed). *)
Definition goroutine_step (i : nat) (s : Bench) : option Bench :=
  match b_crashed s, nth_error (b_goroutines s) i with
  | Some _, _ | _, None => None
  | None, Some (q, Pending) =>
      (* workers <- struct{}{} *)
      if b_workers s <? capacity
      then Some (mkBench (b_client s) (b_world s) (b_workers s + 1) (b_wg s)
                   (b_errorList s) (b_queryList s)
                   (set_goroutine i (q, Acquired) s) (b_start s) None)
      else None
  | None, Some (q, Acquired) =>
      (* resp, err := c.getHTTPQuery(&q), until the request has left *)
      let '(oc, c', w') := getHTTPQuery_begin env (b_client s) q (b_world s) in
      Some (mkBench c' w' (b_workers s) (b_wg s)
              (b_errorList s) (b_queryList s)
              (set_goroutine i (q, Calling oc) s) (b_start s) None)
  | None, Some (q, Calling oc) =>
      (* the reply arrives and [getHTTPQuery] returns *)
      let '(r, w') :=
        getHTTPQuery_end env (c_Client (b_client s)) oc (b_world s) in
      let next :=
        match r with
        | Ok res => Returned res
        | Panic p => Unwinding (Some p)
        end in
      Some (mkBench (b_client s) w' (b_workers s) (b_wg s)
              (b_errorList s) (b_queryList s)
              (set_goroutine i (q, next) s) (b_start s) None)
  | None, Some (q, Returned (Failure e)) =>
      (* errorList = append(errorList, ...); then [resp.StatusCode]
         with [resp == nil] *)
      Some (mkBench (b_client s) (b_world s) (b_workers s) (b_wg s)
              (b_errorList s ++ [ErrQuery q e]) (b_queryList s)
              (set_goroutine i (q, Unwinding (Some NilDereference)) s)
              (b_start s) None)
  | None, Some (q, Returned (Success r)) =>
      (* q.Start = ...; q.End = ...; queryList = append(queryList, q) *)
      let q' := {| q_Query := q_Query q;
                   q_Start := UnixMilli (Timestamp_Start r);
                   q_End := UnixMilli (Timestamp_End r);
                   q_Step := q_Step q |} in
      Some (mkBench (b_client s) (b_world s) (b_workers s) (b_wg s)
              (b_errorList s) (b_queryList s ++ [q'])
              (set_goroutine i (q', Unwinding None) s) (b_start s) None)
  | None, Some (q, Unwinding p) =>
      (* <-workers *)
      if 0 <? b_workers s
      then Some (mkBench (b_client s) (b_world s) (b_workers s - 1) (b_wg s)
                   (b_errorList s) (b_queryList s)
                   (set_goroutine i (q, Released p) s) (b_start s) None)
      else None
  | None, Some (q, Released p) =>
      (* wg.Add(-1) *)
      Some (mkBench (b_client s) (b_world s) (b_workers s) (b_wg s - 1)
              (b_errorList s) (b_queryList s)
              (set_goroutine i (q, Finished p) s) (b_start s) None)
  | None, Some (q, Finished (Some p)) =>
      (* the panic reaches the top of the goroutine *)
      Some (mkBench (b_client s) (b_world s) (b_workers s) (b_wg s)
              (b_errorList s) (b_queryList s)
              (b_goroutines s) (b_start s) (Some p))
  | None, Some (q, Finished None) => None
  end.

(** A scheduled step: a goroutine that cannot move leaves the state as
    it is. *)
Definition step (s : Bench) (i : nat) : Bench :=
  match goroutine_step i s with
  | Some s' => s'
  | None => s
  end.

Definition run (sched : list nat) (s : Bench) : Bench :=
  fold_left step sched s.

(** The state when the loop that starts the goroutines has ended. *)
Definition bench_initial (c : Client) (queries : list Query) (w : World)
  : Bench :=
  let '(start, w') := time_Now env w in
  {| b_client := c; b_world := w'; b_workers := 0;
     b_wg := Z.of_nat (List.length queries);
     b_errorList := []; b_queryList := [];
     b_goroutines := map (fun q => (q, Pending)) queries;
     b_start := start; b_crashed := None |}.

(** [benchmark] up to there; [make] panics on a negative capacity. *)
Definition bench_start (c : Client) (queries : list Query) (w : World)
  : outcome Bench :=
  if capacity <? 0 then Panic MakechanSizeOutOfRange
  else Ok (bench_initial c queries w).

(** How a run of [benchmark] stands after a schedule. *)
Inductive bench_result : Type :=
| BenchReturned (stats : Stats) (c : Client) (w : World)
| BenchCrashed (p : panic)
| BenchWaiting.    (* the main goroutine is still in [wg.Wait()] *)

(** [benchmark] from [wg.Wait()] on. *)
Definition bench_finish (s : Bench) : bench_result :=
  match b_crashed s with
  | Some p => BenchCrashed p
  | None =>
      if b_wg s =? 0
      then
        let '(end_, w') := time_Now env (b_world s) in
        match getQueriesStats (b_queryList s) with
        | Ok stats =>
            BenchReturned
              {| Average := Average stats;
                 Errors := b_errorList s;
                 Fastest := Fastest stats;
                 Median := Median stats;
                 Processed := Z.of_nat (List.length (b_goroutines s))
                              - Z.of_nat (List.length (b_errorList s));
                 Slowest := Slowest stats;
                 Total := Z.quot (end_ - b_start s) time_Millisecond |}
              (b_client s) w'
        | Panic p => BenchCrashed p
        end
      else BenchWaiting
  end.

(** [func benchmark(c *Client, queries []Query, maxConcurrentWorkers int) *Stats]
    under the schedule [sched]. *)
Definition benchmark (c : Client) (queries : list Query) (w : World)
    (sched : list nat) : bench_result :=
  match bench_start c queries w with
  | Ok s => bench_finish (run sched s)
  | Panic p => BenchCrashed p
  end.

(** Goroutines holding a permit. *)
Definition holds_permit (g : Query * pc) : bool :=
  match snd g with
  | Acquired | Calling _ | Returned _ | Unwinding _ => true
  | Pending | Released _ | Finished _ => false
  end.

(** Goroutines whose request is under way. *)
Definition in_call (g : Query * pc) : bool :=
  match snd g with
  | Calling _ => true
  | _ => false
  end.

Definition in_flight (s : Bench) : Z :=
  Z.of_nat (List.length (filter holds_permit (b_goroutines s))).

Definition calls_under_way (s : Bench) : Z :=
  Z.of_nat (List.length (filter in_call (b_goroutines s))).

End Dispatcher.

(** ** Configuration *)

(** [type Config struct] *)
Record Config : Type := mkConfig {
  Filepath : string;
  Workers : Z;
  cfg_URL : string
}.

(** *** The [flag] package

    [FlagSet.Parse] for the flag set of [parseFlags]: the string flags
    [filepath] and [promscale.url] and the integer flag [workers]. *)

Inductive flag_failure : Type :=
| FlagHelp       (* [-h] or [-help]: [ExitOnError] exits with status 0 *)
| FlagError.     (* any other error: [ExitOnError] exits with status 2 *)

(** An argument as [parseOne] reads it. *)
Inductive flag_arg : Type :=
| NotAFlag                                   (* parsing stops *)
| Terminator                                 (* [--]: parsing stops *)
| BadSyntax
| FlagArg (name : string) (value : option string).

Fixpoint split_equals (s : string) : string * option string :=
  match s with
  | EmptyString => (EmptyString, None)
  | String c s' =>
      if Ascii.eqb c "=" then (EmptyString, Some s')
      else let '(n, v) := split_equals s' in (String c n, v)
  end.

Definition read_flag_arg (s : string) : flag_arg :=
  match s with
  | String "-" (String c rest) =>
      if Ascii.eqb c "-" && String.eqb rest "" then Terminator
      else
        let name := if Ascii.eqb c "-" then rest else String c rest in
        match name with
        | EmptyString => BadSyntax
        | String c0 _ =>
            if Ascii.eqb c0 "-" || Ascii.eqb c0 "=" then BadSyntax
            else let '(n, v) := split_equals name in FlagArg n v
        end
  | _ => NotAFlag
  end.

Section Flags.

(** The syntax of an integer flag value:
    [strconv.ParseInt(s, 0, strconv.IntSize)]; [None] when it is
    rejected. *)
Variable int_value : string -> option Z.

Definition known_flag (name : string) : bool :=
  String.eqb name "filepath" || String.eqb name "workers"
  || String.eqb name "promscale.url".

Definition unknown_flag (name : string) : flag_failure :=
  if String.eqb name "help" || String.eqb name "h" then FlagHelp
  else FlagError.

(** [flag.Value.Set(value)] *)
Definition flag_Set (name value : string) (cfg : Config)
  : flag_failure + Config :=
  if String.eqb name "filepath"
  then inr (mkConfig value (Workers cfg) (cfg_URL cfg))
  else if String.eqb name "workers"
  then match int_value value with
       | Some w => inr (mkConfig (Filepath cfg) w (cfg_URL cfg))
       | None => inl FlagError
       end
  else if String.eqb name "promscale.url"
  then inr (mkConfig (Filepath cfg) (Workers cfg) value)
  else inl (unknown_flag name).

(** [FlagSet.Parse(arguments)]; [pending] is a flag that waits for its
    value in the next argument. *)
Fixpoint flag_Parse (arguments : list string) (pending : option string)
    (cfg : Config) : flag_failure + Config :=
  match arguments with
  | [] =>
      match pending with
      | None => inr cfg
      | Some _ => inl FlagError       (* flag needs an argument *)
      end
  | s :: rest =>
      match pending with
      | Some name =>
          match flag_Set name s cfg with
          | inl e => inl e
          | inr cfg' => flag_Parse rest None cfg'
          end
      | None =>
          match read_flag_arg s with
          | NotAFlag | Terminator => inr cfg
          | BadSyntax => inl FlagError
          | FlagArg name (Some v) =>
              match flag_Set name v cfg with
              | inl e => inl e
              | inr cfg' => flag_Parse rest None cfg'
              end
          | FlagArg name None =>
              if known_flag name then flag_Parse rest (Some name) cfg
              else inl (unknown_flag name)
          end
      end
  end.

(** The defaults given to [String] and [Int] in [parseFlags]. *)
Definition flag_defaults : Config :=
  {| Filepath := ""; Workers := 1; cfg_URL := "http://localhost:9201" |}.

(** [func parseFlags()], reading [os.Args]; it returns a configuration
    or an error. *)
Definition parseFlags (os_Args : list string) : process (error + Config) :=
  match (_ <- index os_Args 0 ;; index os_Args 1) with
  | Panic p => Crash p
  | Ok sub =>
      if String.eqb sub "benchmark"
      then
        match flag_Parse (skipn 2 os_Args) None flag_defaults with
        | inl FlagHelp => Exited 0
        | inl FlagError => Exited 2
        | inr cfg =>
            if String.eqb (Filepath cfg) ""
            then Return (inl ErrRequiredInput)
            else Return (inr cfg)
        end
      else Exited 1
  end.

End Flags.

(** ** The program *)

Section Program.

Variable int_value : string -> option Z.
Variable csv_ReadAll : string -> option (list (list string)).
Variable env : Env.

(** How [main] ends: before the dispatcher is called, or with the call
    [benchmark(cli, queries, cfg.Workers)] and its result.  [read_error]
    is the error [readFile] returned, which [main] has logged. *)
Inductive main_result : Type :=
| MainExited (code : Z)
| MainCrashed (p : panic)
| MainDispatched (cli : Client) (queries : list Query) (workers : Z)
    (read_error : option error) (result : bench_result).

(** [func main()] under the schedule [sched] of the goroutines. *)
Definition main (os_Args : list string) (sched : list nat) : main_result :=
  if Z.of_nat (List.length os_Args) <? 2 then MainExited 1
  else
    match parseFlags int_value os_Args with
    | Exited code => MainExited code
    | Crash p => MainCrashed p
    | Return (inl _) => MainExited 1
    | Return (inr cfg) =>
        match open_file env (Filepath cfg) with
        | None => MainExited 1
        | Some contents =>
            match readFile csv_ReadAll contents with
            | Exited code => MainExited code
            | Crash p => MainCrashed p
            | Return (queries, err) =>
                (* [err] is only printed *)
                let cli := newHTTPClient (cfg_URL cfg) in
                MainDispatched cli queries (Workers cfg) err
                  (benchmark env (Workers cfg) cli queries world0 sched)
            end
        end
    end.

End Program.

(** * Properties *)

(** ** Binary64 rounding *)

Module Float64Facts.

Import Float64.

Lemma one_units_eq : one_units = 2 ^ 1074.
Proof. reflexivity. Qed.

Lemma one_units_pos : 0 < one_units.
Proof. rewrite one_units_eq. apply Z.pow_pos_nonneg; lia. Qed.

Lemma rne_div_upper (n d c : Z) :
  0 < d -> n <= c * d -> rne_div n d <= c.
Proof.
  intros Hd Hn. unfold rne_div.
  pose proof (Z.mod_pos_bound n d Hd) as Hr.
  pose proof (Z.div_mod n d ltac:(lia)) as Hq.
  assert (n / d <= c) by (apply Z.div_le_upper_bound; lia).
  assert (n / d = c -> n mod d = 0) by nia.
  destruct (Z.compare_spec (2 * (n mod d)) d);
    try destruct (Z.even (n / d)); lia.
Qed.

Lemma rne_div_lower (n d c : Z) :
  0 < d -> c * d <= n -> c <= rne_div n d.
Proof.
  intros Hd Hn. unfold rne_div.
  assert (c <= n / d) by (apply Z.div_le_lower_bound; lia).
  destruct (2 * (n mod d) ?= d); try destruct (Z.even (n / d)); lia.
Qed.

Lemma quantum_exp_nonneg (m : Z) : 0 <= quantum_exp m.
Proof. unfold quantum_exp. lia. Qed.

Lemma quantum_exp_mono (a b : Z) :
  a <= b -> quantum_exp a <= quantum_exp b.
Proof.
  intros H. unfold quantum_exp.
  pose proof (Z.log2_le_mono a b H). lia.
Qed.

Lemma pow2_pos (s : Z) : 0 <= s -> 0 < 2 ^ s.
Proof. intros. apply Z.pow_pos_nonneg; lia. Qed.

(** A number on the grid is a multiple of every spacing up to its own. *)
Lemma representable_multiple (b s : Z) :
  representable b -> 0 <= s <= quantum_exp b ->
  exists c, b = c * 2 ^ s.
Proof.
  intros [Hb Hmod] Hs.
  apply Z.mod_divide in Hmod; [| pose proof (pow2_pos (quantum_exp b)); lia].
  destruct Hmod as [c Hc].
  exists (c * 2 ^ (quantum_exp b - s)).
  rewrite <- Z.mul_assoc, <- Z.pow_add_r by lia.
  replace (quantum_exp b - s + s) with (quantum_exp b) by lia.
  exact Hc.
Qed.

Lemma round_mag_upper (n d b : Z) :
  0 <= n -> 0 < d -> representable b -> n <= b * d ->
  round_mag n d <= b.
Proof.
  intros Hn Hd Hb Hle. unfold round_mag.
  set (s := quantum_exp (n / d)).
  assert (Hs : 0 <= s <= quantum_exp b).
  { split; [apply quantum_exp_nonneg |].
    apply quantum_exp_mono. apply Z.div_le_upper_bound; lia. }
  destruct (representable_multiple b s Hb Hs) as [c Hc].
  pose proof (pow2_pos s (proj1 Hs)) as Hp.
  assert (rne_div n (d * 2 ^ s) <= c).
  { apply rne_div_upper; nia. }
  nia.
Qed.

Lemma round_mag_lower (n d b : Z) :
  0 <= n -> 0 < d -> representable b -> b * d <= n ->
  b <= round_mag n d.
Proof.
  intros Hn Hd Hb Hle. unfold round_mag.
  set (x := n / d).
  set (s := quantum_exp x).
  assert (Hbx : b <= x) by (apply Z.div_le_lower_bound; lia).
  assert (Hxd : x * d <= n).
  { unfold x. rewrite Z.mul_comm. apply Z.mul_div_le. lia. }
  pose proof (quantum_exp_nonneg x) as Hs0. fold s in Hs0.
  pose proof (pow2_pos s Hs0) as Hp.
  pose proof (quantum_exp_mono b x Hbx) as Hmono. fold s in Hmono.
  destruct (Z.eq_dec (quantum_exp b) s) as [Heq | Hne].
  - destruct (representable_multiple b s Hb ltac:(lia)) as [c Hc].
    assert (c <= rne_div n (d * 2 ^ s)).
    { apply rne_div_lower; nia. }
    nia.
  - (* [b] lies in a lower binade than [x] *)
    assert (Hlog : Z.log2 b < Z.log2 x).
    { unfold s, quantum_exp in *. lia. }
    assert (Hx0 : 0 < x).
    { destruct (Z_lt_le_dec 0 x) as [|Hx]; [assumption |].
      rewrite (Z.log2_nonpos x Hx) in Hlog.
      pose proof (Z.log2_nonneg b). lia. }
    assert (Hse : s = Z.log2 x - 52).
    { unfold s, quantum_exp in *. lia. }
    assert (Hb2 : b < 2 ^ Z.log2 x).
    { destruct Hb as [Hb _].
      destruct (Z.eq_dec b 0) as [-> | Hb0].
      - apply Z.pow_pos_nonneg; [lia | apply Z.log2_nonneg].
      - apply Z.lt_le_trans with (2 ^ Z.succ (Z.log2 b)).
        + apply Z.log2_spec. lia.
        + apply Z.pow_le_mono_r; lia. }
    assert (Hx2 : 2 ^ Z.log2 x <= x) by (apply Z.log2_spec; lia).
    assert (Hsplit : 2 ^ Z.log2 x = 2 ^ 52 * 2 ^ s).
    { rewrite <- Z.pow_add_r by lia. f_equal. lia. }
    assert (2 ^ 52 <= rne_div n (d * 2 ^ s)).
    { apply rne_div_lower; [nia |].
      replace (2 ^ 52 * (d * 2 ^ s)) with (2 ^ 52 * 2 ^ s * d) by ring.
      rewrite <- Hsplit. nia. }
    nia.
Qed.

Lemma round_mag_nonneg (n d : Z) : 0 <= n -> 0 < d -> 0 <= round_mag n d.
Proof.
  intros Hn Hd. unfold round_mag.
  pose proof (pow2_pos _ (quantum_exp_nonneg (n / d))) as Hp.
  assert (0 <= rne_div n (d * 2 ^ quantum_exp (n / d))).
  { apply rne_div_lower; nia. }
  nia.
Qed.

(** Integers up to [2^53], scaled by a power of two, are on the grid. *)
Lemma representable_scaled (k j : Z) :
  0 <= k <= 2 ^ 53 -> 0 <= j -> representable (k * 2 ^ j).
Proof.
  intros Hk Hj. pose proof (pow2_pos j Hj) as Hp.
  split; [nia |].
  destruct (Z.eq_dec k 0) as [-> | Hk0].
  { rewrite Z.mul_0_l. apply Z.mod_0_l.
    pose proof (pow2_pos _ (quantum_exp_nonneg 0)). lia. }
  unfold quantum_exp.
  rewrite Z.log2_mul_pow2 by lia.
  destruct (Z_le_gt_dec (Z.log2 k) 52) as [Hlog | Hlog].
  - (* spacing no coarser than [2^j] *)
    set (q := Z.max (j + Z.log2 k - 52) 0).
    assert (Hq : 0 <= q <= j) by (unfold q; lia).
    replace (2 ^ j) with (2 ^ (j - q) * 2 ^ q)
      by (rewrite <- Z.pow_add_r by lia; f_equal; lia).
    rewrite Z.mul_assoc. apply Z.mod_mul.
    pose proof (pow2_pos q (proj1 Hq)). lia.
  - (* [k = 2^53] *)
    assert (Hk53 : k = 2 ^ 53).
    { assert (2 ^ 53 <= k); [| lia].
      apply Z.le_trans with (2 ^ Z.log2 k).
      - apply Z.pow_le_mono_r; lia.
      - apply Z.log2_spec. lia. }
    subst k. rewrite Z.log2_pow2 by lia.
    replace (Z.max (j + 53 - 52) 0) with (j + 1) by lia.
    rewrite <- Z.pow_add_r by lia.
    replace (53 + j) with (52 + (j + 1)) by lia.
    rewrite Z.pow_add_r by lia. apply Z.mod_mul.
    pose proof (pow2_pos (j + 1)). lia.
Qed.

(** Rounding stays between two grid points that enclose the exact value. *)
Lemma round_between (n d lo hi : Z) :
  0 < d ->
  representable (Z.abs lo) -> representable (Z.abs hi) ->
  Z.abs lo < overflow_units -> Z.abs hi < overflow_units ->
  lo * d <= n <= hi * d ->
  exists r, round n d = Fin r /\ lo <= r <= hi.
Proof.
  intros Hd Rlo Rhi Olo Ohi [Hlo Hhi]. unfold round.
  pose proof (round_mag_nonneg (Z.abs n) d (Z.abs_nonneg n) Hd) as Hm0.
  destruct (Z_lt_le_dec n 0) as [Hneg | Hpos].
  - (* negative value *)
    assert (lo < 0) by nia.
    assert (Hup : round_mag (Z.abs n) d <= Z.abs lo).
    { apply round_mag_upper; try assumption; lia. }
    destruct (overflow_units <=? round_mag (Z.abs n) d) eqn:E;
      [apply Z.leb_le in E; lia |].
    eexists; split; [reflexivity |].
    rewrite Z.sgn_neg by assumption.
    split; [lia |].
    destruct (Z_lt_le_dec hi 0) as [Hhn | Hhp]; [| lia].
    assert (Z.abs hi <= round_mag (Z.abs n) d).
    { apply round_mag_lower; try assumption; lia. }
    lia.
  - assert (0 <= hi) by nia.
    assert (Hup : round_mag (Z.abs n) d <= Z.abs hi).
    { apply round_mag_upper; try assumption; lia. }
    destruct (overflow_units <=? round_mag (Z.abs n) d) eqn:E;
      [apply Z.leb_le in E; lia |].
    eexists; split; [reflexivity |].
    destruct (Z.eq_dec n 0) as [-> | Hn0].
    + rewrite Z.sgn_0. split; nia.
    + rewrite Z.sgn_pos by lia.
      split; [| lia].
      destruct (Z_lt_le_dec 0 lo) as [Hlp | Hln]; [| lia].
      assert (Z.abs lo <= round_mag (Z.abs n) d).
      { apply round_mag_lower; try assumption; lia. }
      lia.
Qed.

(** Scaled integers of magnitude up to [2^53] are finite grid points. *)
Lemma grid_scaled (z j : Z) :
  Z.abs z <= 2 ^ 53 -> 0 <= j <= 1074 ->
  representable (Z.abs (z * 2 ^ j)) /\ Z.abs (z * 2 ^ j) < overflow_units.
Proof.
  intros Hz Hj. pose proof (pow2_pos j (proj1 Hj)) as Hp.
  rewrite Z.abs_mul, (Z.abs_eq (2 ^ j)) by lia.
  split.
  - apply representable_scaled; lia.
  - apply Z.le_lt_trans with (2 ^ 53 * 2 ^ 1074).
    + apply Z.mul_le_mono_nonneg; try lia.
      apply Z.pow_le_mono_r; lia.
    + unfold overflow_units. rewrite <- Z.pow_add_r by lia.
      apply Z.pow_lt_mono_r; lia.
Qed.

Lemma grid_int (z : Z) :
  Z.abs z <= 2 ^ 53 ->
  representable (Z.abs (z * one_units))
  /\ Z.abs (z * one_units) < overflow_units.
Proof. intros. rewrite one_units_eq. apply grid_scaled; lia. Qed.

(** [float64(z)] is exact up to [2^53]. *)
Lemma of_int_exact (z : Z) :
  Z.abs z <= 2 ^ 53 -> of_int z = Fin (z * one_units).
Proof.
  intros Hz. unfold of_int.
  destruct (grid_int z Hz) as [R Ov].
  destruct (round_between (z * one_units) 1 (z * one_units) (z * one_units))
    as [r [Hr Hb]]; try assumption; try lia.
  rewrite Hr. f_equal. lia.
Qed.

(** Adding two integers is exact while the sum stays within [2^53]. *)
Lemma add_exact (a b : Z) :
  Z.abs (a + b) <= 2 ^ 53 ->
  add (Fin (a * one_units)) (Fin (b * one_units))
  = Fin ((a + b) * one_units).
Proof.
  intros Hz. cbn [add].
  destruct (grid_int (a + b) Hz) as [R Ov].
  destruct (round_between (a * one_units + b * one_units) 1
              ((a + b) * one_units) ((a + b) * one_units))
    as [r [Hr Hb]]; try assumption; try lia.
  rewrite Hr. f_equal. lia.
Qed.

(** Halving an integer of magnitude up to [2^53] is exact. *)
Lemma half_exact (z : Z) :
  Z.abs z <= 2 ^ 53 ->
  is_ratio (div (of_int z) (of_int 2)) z 2.
Proof.
  intros Hz.
  rewrite (of_int_exact z Hz), (of_int_exact 2) by (cbn; lia).
  pose proof one_units_pos as HU.
  cbn [div].
  destruct (2 * one_units =? 0) eqn:E; [apply Z.eqb_eq in E; lia |].
  rewrite Z.sgn_pos, Z.abs_eq by lia.
  destruct (grid_scaled z 1073 Hz ltac:(lia)) as [R Ov].
  assert (Hsplit : one_units = 2 * 2 ^ 1073).
  { rewrite one_units_eq. change 1074 with (1 + 1073).
    rewrite Z.pow_add_r by lia. reflexivity. }
  assert (Hexact : z * 2 ^ 1073 * (2 * one_units)
                   = 1 * (z * one_units) * one_units).
  { rewrite Hsplit. ring. }
  destruct (round_between (1 * (z * one_units) * one_units) (2 * one_units)
              (z * 2 ^ 1073) (z * 2 ^ 1073))
    as [r [Hr Hb]]; try assumption; try lia.
  rewrite Hr. cbn [is_ratio]. rewrite Hsplit. lia.
Qed.

(** A quotient lies between integer bounds of its exact value. *)
Lemma div_between (n d lo hi : Z) :
  0 < d ->
  Z.abs lo <= 2 ^ 53 -> Z.abs hi <= 2 ^ 53 ->
  lo * d <= n <= hi * d ->
  int_le lo (div (Fin n) (Fin d)) /\ le_int (div (Fin n) (Fin d)) hi.
Proof.
  intros Hd Hlo Hhi [H1 H2]. cbn [div].
  pose proof one_units_pos as HU.
  destruct (d =? 0) eqn:E; [apply Z.eqb_eq in E; lia |].
  rewrite Z.sgn_pos, Z.abs_eq by lia.
  destruct (grid_int lo Hlo) as [Rlo Olo].
  destruct (grid_int hi Hhi) as [Rhi Ohi].
  destruct (round_between (1 * n * one_units) d
              (lo * one_units) (hi * one_units))
    as [r [Hr Hb]]; try assumption; try nia.
  rewrite Hr. cbn [int_le le_int]. lia.
Qed.

End Float64Facts.

(** ** Sorting *)

Module SortFacts.

Lemma insert_sorted_perm (x : Z) (l : list Z) :
  Permutation (x :: l) (insert_sorted x l).
Proof.
  induction l as [| y l IH]; cbn [insert_sorted].
  - apply Permutation_refl.
  - destruct (x <=? y).
    + apply Permutation_refl.
    + eapply perm_trans; [apply perm_swap |].
      apply perm_skip. exact IH.
Qed.

Lemma sort_Slice_perm (l : list Z) : Permutation l (sort_Slice l).
Proof.
  induction l as [| x l IH]; cbn [sort_Slice fold_right].
  - apply perm_nil.
  - eapply perm_trans; [apply perm_skip, IH |].
    apply insert_sorted_perm.
Qed.

Lemma insert_sorted_sorted (x : Z) (l : list Z) :
  StronglySorted Z.le l -> StronglySorted Z.le (insert_sorted x l).
Proof.
  induction 1 as [| y l Hs IH Hall]; cbn [insert_sorted].
  - repeat constructor.
  - destruct (Z.leb_spec x y) as [Hxy | Hxy].
    + constructor; [constructor; assumption |].
      constructor; [assumption |].
      eapply Forall_impl; [| exact Hall]. intros; lia.
    + constructor; [exact IH |].
      eapply Permutation_Forall; [apply insert_sorted_perm |].
      constructor; [lia | assumption].
Qed.

Lemma sort_Slice_sorted (l : list Z) : StronglySorted Z.le (sort_Slice l).
Proof.
  induction l as [| x l IH]; cbn [sort_Slice fold_right].
  - constructor.
  - apply insert_sorted_sorted. exact IH.
Qed.

(** The ascending rearrangement of a list of integers is unique, so
    every correct sorting routine returns what [sort_Slice] returns. *)
Lemma sorted_perm_unique (l1 l2 : list Z) :
  StronglySorted Z.le l1 -> StronglySorted Z.le l2 ->
  Permutation l1 l2 -> l1 = l2.
Proof.
  intros H1. revert l2.
  induction H1 as [| a l1 Hs1 IH Ha]; intros l2 H2 Hp.
  - apply Permutation_nil in Hp. subst. reflexivity.
  - destruct H2 as [| b l2 Hs2 Hb].
    + apply Permutation_sym, Permutation_nil in Hp. discriminate.
    + assert (a = b).
      { assert (Hin1 : In a (b :: l2))
          by (eapply Permutation_in; [exact Hp | left; reflexivity]).
        assert (Hin2 : In b (a :: l1))
          by (eapply Permutation_in;
              [apply Permutation_sym; exact Hp | left; reflexivity]).
        rewrite Forall_forall in Ha, Hb.
        destruct Hin1 as [-> | Hin1]; [reflexivity |].
        destruct Hin2 as [-> | Hin2]; [reflexivity |].
        specialize (Ha _ Hin2). specialize (Hb _ Hin1). lia. }
      subst b. f_equal.
      apply IH; [assumption |].
      eapply Permutation_cons_inv. exact Hp.
Qed.

Lemma sort_Slice_unique (l sorted : list Z) :
  StronglySorted Z.le sorted -> Permutation l sorted ->
  sorted = sort_Slice l.
Proof.
  intros Hs Hp. apply sorted_perm_unique.
  - exact Hs.
  - apply sort_Slice_sorted.
  - eapply perm_trans; [apply Permutation_sym, Hp | apply sort_Slice_perm].
Qed.

Lemma sort_Slice_length (l : list Z) :
  List.length (sort_Slice l) = List.length l.
Proof. symmetry. apply Permutation_length, sort_Slice_perm. Qed.

End SortFacts.

(** ** The statistics loop *)

Module StatsFacts.

Import Float64 Float64Facts.

Definition sum (l : list Z) : Z := fold_right Z.add 0 l.
Definition sum_abs (l : list Z) : Z :=
  fold_right (fun d acc => Z.abs d + acc) 0 l.

Lemma wrap_range (z : Z) : Int64.in_range (Int64.wrap z).
Proof.
  unfold Int64.in_range, Int64.wrap, Int64.min_int, Int64.max_int.
  pose proof (Z.mod_pos_bound (z + 2 ^ 63) (2 ^ 64) ltac:(lia)). lia.
Qed.

Lemma wrap_small (z : Z) : Int64.in_range z -> Int64.wrap z = z.
Proof.
  unfold Int64.in_range, Int64.wrap, Int64.min_int, Int64.max_int.
  intros H. rewrite Z.mod_small by lia. lia.
Qed.

(** The loop reads a query only through its elapsed time. *)
Definition loop_body_diff (st : loop_state) (d : Z) : loop_state :=
  {| l_fastest := if d <? l_fastest st then d else l_fastest st;
     l_slowest := if l_slowest st <? d then d else l_slowest st;
     l_average := Float64.add (l_average st) (Float64.of_int d);
     l_timeDiffs := l_timeDiffs st ++ [d] |}.

Lemma loop_by_diffs (ql : list Query) (st : loop_state) :
  fold_left loop_body ql st
  = fold_left loop_body_diff (map timeDiff ql) st.
Proof.
  revert st. induction ql as [| q ql IH]; intros st; cbn [fold_left map].
  - reflexivity.
  - apply IH.
Qed.

Lemma loop_timeDiffs (ds : list Z) (st : loop_state) :
  l_timeDiffs (fold_left loop_body_diff ds st) = (l_timeDiffs st ++ ds)%list.
Proof.
  revert st. induction ds as [| d ds IH]; intros st; cbn [fold_left].
  - rewrite app_nil_r. reflexivity.
  - rewrite IH. cbn [loop_body_diff l_timeDiffs].
    rewrite <- app_assoc. reflexivity.
Qed.

Lemma loop_fastest (ds : list Z) (st : loop_state) :
  let f := l_fastest (fold_left loop_body_diff ds st) in
  f <= l_fastest st /\ Forall (fun d => f <= d) ds
  /\ (f = l_fastest st \/ In f ds).
Proof.
  revert st. induction ds as [| d ds IH]; intros st; cbn [fold_left].
  - cbn. repeat split; [lia | constructor | left; reflexivity].
  - destruct (IH (loop_body_diff st d)) as [H1 [H2 H3]].
    cbn [loop_body_diff l_fastest] in H1, H3.
    cbn zeta. set (f := l_fastest (fold_left _ _ _)) in *.
    destruct (Z.ltb_spec d (l_fastest st)).
    + repeat split; [lia | constructor; [lia | exact H2] |].
      right. destruct H3 as [-> | H3]; [left; reflexivity | right; exact H3].
    + repeat split; [lia | constructor; [lia | exact H2] |].
      destruct H3 as [-> | H3]; [left; reflexivity | right; right; exact H3].
Qed.

Lemma loop_slowest (ds : list Z) (st : loop_state) :
  let m := l_slowest (fold_left loop_body_diff ds st) in
  l_slowest st <= m /\ Forall (fun d => d <= m) ds
  /\ (m = l_slowest st \/ In m ds).
Proof.
  revert st. induction ds as [| d ds IH]; intros st; cbn [fold_left].
  - cbn. repeat split; [lia | constructor | left; reflexivity].
  - destruct (IH (loop_body_diff st d)) as [H1 [H2 H3]].
    cbn [loop_body_diff l_slowest] in H1, H3.
    cbn zeta. set (m := l_slowest (fold_left _ _ _)) in *.
    destruct (Z.ltb_spec (l_slowest st) d).
    + repeat split; [lia | constructor; [lia | exact H2] |].
      right. destruct H3 as [-> | H3]; [left; reflexivity | right; exact H3].
    + repeat split; [lia | constructor; [lia | exact H2] |].
      destruct H3 as [-> | H3]; [left; reflexivity | right; right; exact H3].
Qed.

(** While the running total stays within [2^53] the sum is exact. *)
Lemma loop_average (ds : list Z) (st : loop_state) (a : Z) :
  l_average st = Fin (a * one_units) ->
  Z.abs a + sum_abs ds <= 2 ^ 53 ->
  l_average (fold_left loop_body_diff ds st)
  = Fin ((a + sum ds) * one_units).
Proof.
  revert st a. induction ds as [| d ds IH]; intros st a Ha Hb;
    cbn [fold_left sum sum_abs fold_right] in *.
  - rewrite Ha. f_equal. lia.
  - assert (0 <= sum_abs ds).
    { clear. induction ds; cbn [sum_abs fold_right]; [lia |].
      fold (sum_abs ds). lia. }
    fold (sum_abs ds) in Hb. fold (sum ds).
    rewrite (IH (loop_body_diff st d) (a + d)).
    + f_equal. lia.
    + cbn [loop_body_diff l_average]. rewrite Ha.
      rewrite of_int_exact by lia.
      apply add_exact. lia.
    + lia.
Qed.

Lemma sum_abs_nonneg (l : list Z) : 0 <= sum_abs l.
Proof.
  induction l; cbn [sum_abs fold_right]; [lia |]. fold (sum_abs l). lia.
Qed.

Lemma sum_abs_perm (l1 l2 : list Z) :
  Permutation l1 l2 -> sum_abs l1 = sum_abs l2.
Proof.
  induction 1 as [| x l l' Hp IH | x y l | l l' l'' H1 IH1 H2 IH2].
  - reflexivity.
  - cbn [sum_abs fold_right]. fold (sum_abs l) (sum_abs l'). lia.
  - cbn [sum_abs fold_right]. fold (sum_abs l). lia.
  - lia.
Qed.

Lemma sum_abs_In (l : list Z) (x : Z) : In x l -> Z.abs x <= sum_abs l.
Proof.
  induction l as [| y l IH]; intros Hin; [destruct Hin |].
  cbn [sum_abs fold_right]. fold (sum_abs l).
  pose proof (sum_abs_nonneg l).
  destruct Hin as [-> | Hin]; [lia | specialize (IH Hin); lia].
Qed.

Lemma sum_abs_adjacent (l : list Z) (i : nat) (a b : Z) :
  nth_error l i = Some a -> nth_error l (S i) = Some b ->
  Z.abs a + Z.abs b <= sum_abs l.
Proof.
  revert i. induction l as [| y l IH]; intros i Ha Hb.
  - destruct i; discriminate.
  - cbn [sum_abs fold_right]. fold (sum_abs l).
    destruct i as [| i].
    + injection Ha as ->.
      change (nth_error l 0 = Some b) in Hb.
      pose proof (sum_abs_In l b (nth_error_In _ _ Hb)). lia.
    + change (nth_error l i = Some a) in Ha.
      change (nth_error l (S i) = Some b) in Hb.
      specialize (IH i Ha Hb). lia.
Qed.

Lemma sum_between (l : list Z) (lo hi : Z) :
  Forall (fun d => lo <= d <= hi) l ->
  lo * Z.of_nat (List.length l) <= sum l <= hi * Z.of_nat (List.length l).
Proof.
  induction 1 as [| d l Hd Hl IH]; cbn [sum fold_right List.length].
  - lia.
  - fold (sum l). lia.
Qed.

Lemma sum_le_sum_abs (l : list Z) : Z.abs (sum l) <= sum_abs l.
Proof.
  induction l; cbn [sum sum_abs fold_right]; [lia |].
  fold (sum l) (sum_abs l). lia.
Qed.

(** Reading a slice inside its bounds. *)
Lemma index_in_range {A : Type} (s : list A) (i : Z) :
  0 <= i < Z.of_nat (List.length s) ->
  exists x, nth_error s (Z.to_nat i) = Some x /\ index s i = Ok x.
Proof.
  intros Hi. unfold index.
  destruct (Z.ltb_spec i 0); [lia |].
  destruct (Z.leb_spec (Z.of_nat (List.length s)) i); [lia |].
  cbn [orb].
  destruct (nth_error s (Z.to_nat i)) as [x |] eqn:E.
  - exists x. split; reflexivity.
  - apply nth_error_None in E. lia.
Qed.

End StatsFacts.

(** ** The repository's tests, replayed on the embedding *)

Module Tests.

Definition q0 (e : Z) : Query :=
  {| q_Query := ""; q_Start := 0; q_End := e; q_Step := 0 |}.

(** The float literal [num / den]. *)
Definition lit (num den : Z) : Float64.t :=
  Float64.div (Float64.of_int num) (Float64.of_int den).

(** [Test_getQueriesStats] *)
Example test_stats_ok :
  getQueriesStats [q0 2; q0 2; q0 2]
  = Ok (mkStats (lit 2 1) [] 2 (lit 2 1) 0 2 0).
Proof. vm_compute. reflexivity. Qed.

Example test_stats_odd :
  getQueriesStats [q0 1; q0 2; q0 3]
  = Ok (mkStats (lit 2 1) [] 1 (lit 2 1) 0 3 0).
Proof. vm_compute. reflexivity. Qed.

Example test_stats_even :
  getQueriesStats [q0 1; q0 2; q0 3; q0 4]
  = Ok (mkStats (lit 5 2) [] 1 (lit 5 2) 0 4 0).
Proof. vm_compute. reflexivity. Qed.

(** [Test_getScheme] *)
Example test_getScheme :
  getScheme "https://example.xyz" = Some "https://"
  /\ getScheme "ftp://example.xyz" = Some "ftp://"
  /\ getScheme "http://example.xyz" = Some "http://"
  /\ getScheme "://example.xyz" = None.
Proof. repeat split; reflexivity. Qed.

(** [TestURL_getHTTPQuery], which runs in a zone one hour east of UTC. *)
Definition env_test : Env :=
  {| reply := fun _ _ => (None, None);
     now := fun k => Z.of_nat k;
     zone_offset := fun _ => 3600;
     open_file := fun _ => None |}.

Example test_getHTTPQuery_url :
  let c := {| c_Client := ClientMock;
              c_URL := mkURL "https" "promscale.xyz" "" "";
              c_Version := "v1" |} in
  let q := mkQuery "some query" 100000 999999 50 in
  c_URL (snd (fst (getHTTPQuery env_test c q world0)))
  = mkURL "https" "promscale.xyz" "/api/v1/query_range"
      "end=1970-01-01T01%3A16%3A39%2B01%3A00&query=some+query&start=1970-01-01T01%3A01%3A40%2B01%3A00&step=50".
Proof. vm_compute. reflexivity. Qed.

(** [Test_readFile] (the query texts without their quoted label values) *)
Example test_readFile_empty : readFile csv_plain "" = Return ([], None).
Proof. reflexivity. Qed.

Example test_readFile_rows :
  readFile csv_plain
    "demo_cpu_usage_seconds_total|1597056698698|1597059548699|15000
avg by(instance) (demo_cpu_usage_seconds_total)|1597057698698|1597058548699|60000"
  = Return
      ([mkQuery "demo_cpu_usage_seconds_total" 1597056698698 1597059548699 15000;
        mkQuery "avg by(instance) (demo_cpu_usage_seconds_total)"
                1597057698698 1597058548699 60000],
       None).
Proof. vm_compute. reflexivity. Qed.

(** Decimal integer flag values. *)
Definition decimal (s : string) : option Z :=
  match ParseInt s with
  | inr z => Some z
  | inl _ => None
  end.

(** [Test_parseFlags] *)
Example test_parseFlags_required :
  parseFlags decimal ["pqlbench"; "benchmark"] = Return (inl ErrRequiredInput).
Proof. reflexivity. Qed.

Example test_parseFlags_ok :
  parseFlags decimal
    ["pqlbench"; "benchmark"; "--filepath=promql_queries.csv";
     "--workers=100"; "--promscale.url=http://localhost:9201"]
  = Return (inr (mkConfig "promql_queries.csv" 100 "http://localhost:9201")).
Proof. vm_compute. reflexivity. Qed.

(** Sample data for runs of the dispatcher: a server that answers every
    request with status 200 (each reading of the clock is one millisecond
    after the previous one), two queries, and the client for the default
    address. *)
Definition env_up : Env :=
  {| reply := fun _ _ => (Some {| StatusCode := 200 |}, None);
     now := fun k => Z.of_nat k * time_Millisecond;
     zone_offset := fun _ => 0;
     open_file := fun _ => None |}.

Definition qa : Query := mkQuery "up" 1597056698698 1597059548699 15000.
Definition qb : Query := mkQuery "rate" 1597057698698 1597058548699 60000.
Definition cli : Client := newHTTPClient "http://localhost:9201".

(** The operations of [Float64] against the Standard Library's
    specification of binary64 ([prec = 53], [emax = 1024]). *)
Definition spec_of_int (z : Z) : SpecFloat.spec_float :=
  SpecFloat.binary_normalize 53 1024 z 0 false.

Definition agree_div (a b : Z) : bool :=
  match SpecFloat.SFcompare
          (Float64.to_spec (Float64.div (Float64.of_int a) (Float64.of_int b)))
          (SpecFloat.SFdiv 53 1024 (spec_of_int a) (spec_of_int b)) with
  | Some Eq => true
  | _ => false
  end.

Definition agree_add (a b : Z) : bool :=
  match SpecFloat.SFcompare
          (Float64.to_spec (Float64.add (Float64.of_int a) (Float64.of_int b)))
          (SpecFloat.SFadd 53 1024 (spec_of_int a) (spec_of_int b)) with
  | Some Eq => true
  | _ => false
  end.

Example float64_agrees_with_spec :
  forallb (fun ab => agree_div (fst ab) (snd ab) && agree_add (fst ab) (snd ab))
    [(1, 3); (5, 2); (-7, 3); (2 ^ 62 + 12345, 3); (1, 2 ^ 63 - 1);
     (2 ^ 53 + 1, 1); (2 ^ 53 + 3, 7); (- 2 ^ 63, 2 ^ 53 - 1);
     (2 ^ 53, 1); (2 ^ 53 + 2, -5); (10, 4); (0, 9); (6, 3)]
  = true.
Proof. vm_compute. reflexivity. Qed.

End Tests.

(** ** The statistics aggregator *)

Module StatsClaims.

Import Float64 Float64Facts SortFacts StatsFacts.

(** [getQueriesStats] as a function of the elapsed times alone. *)
Definition stats_of_diffs (ds : list Z) : outcome Stats :=
  let st := fold_left loop_body_diff ds loop_init in
  median <- median_of (sort_Slice (l_timeDiffs st)) ;;
  Ok {| Average := div (l_average st) (of_int (Z.of_nat (List.length ds)));
        Errors := [];
        Fastest := l_fastest st;
        Median := median;
        Processed := 0;
        Slowest := l_slowest st;
        Total := 0 |}.

Lemma getQueriesStats_by_diffs (ql : list Query) :
  getQueriesStats ql = stats_of_diffs (map timeDiff ql).
Proof.
  unfold getQueriesStats, stats_of_diffs.
  rewrite loop_by_diffs, length_map. reflexivity.
Qed.

Lemma stats_of_diffs_sorted (ds : list Z) :
  l_timeDiffs (fold_left loop_body_diff ds loop_init) = ds.
Proof. rewrite loop_timeDiffs. reflexivity. Qed.

(** The two branches of the median block on a non-empty slice. *)
Lemma median_of_cases (s : list Z) :
  s <> [] ->
  let len := Z.of_nat (List.length s) in
  (len mod 2 = 1
   /\ exists m, nth_error s (Z.to_nat (len / 2)) = Some m
                /\ median_of s = Ok (of_int m))
  \/ (len mod 2 = 0 /\ 1 <= len / 2
      /\ exists a b,
          nth_error s (Z.to_nat (len / 2 - 1)) = Some a
          /\ nth_error s (Z.to_nat (len / 2)) = Some b
          /\ median_of s
             = Ok (div (of_int (Int64.add a b)) (of_int 2))).
Proof.
  intros Hne len.
  assert (Hlen : 0 < len).
  { unfold len. destruct s; [contradiction | cbn [List.length]; lia]. }
  pose proof (Z.mod_pos_bound len 2 ltac:(lia)) as Hmod.
  pose proof (Z.div_mod len 2 ltac:(lia)) as Hdiv.
  unfold median_of. fold len.
  destruct (Z.eqb_spec (len mod 2) 0) as [He | Ho]; cbn [negb].
  - right. split; [exact He |]. split; [lia |].
    destruct (index_in_range s (len / 2 - 1)) as [a [Ha Ia]];
      [fold len; lia |].
    destruct (index_in_range s (len / 2)) as [b [Hb Ib]];
      [fold len; lia |].
    exists a, b. rewrite Ia, Ib. repeat split; assumption.
  - left. split; [lia |].
    destruct (index_in_range s (len / 2)) as [m [Hm Im]];
      [fold len; lia |].
    exists m. rewrite Im. split; [assumption | reflexivity].
Qed.

Lemma map_nonempty {A B : Type} (f : A -> B) (l : list A) :
  l <> [] -> map f l <> [].
Proof. destruct l; [contradiction | discriminate]. Qed.

Lemma sort_nonempty (l : list Z) : l <> [] -> sort_Slice l <> [].
Proof.
  intros Hne Hs. apply Hne.
  apply Permutation_nil. rewrite <- Hs.
  apply Permutation_sym, sort_Slice_perm.
Qed.

(** C1 (as amended).  For every non-empty query list, [getQueriesStats]
    returns, and its median is read off the ascending rearrangement of
    the elapsed times [End - Start]: with an odd count it is
    [float64] of the middle element, with an even count it is
    [float64] of the [int64] sum of the two middle elements, divided by
    two.  That value is exactly the middle element when its magnitude
    is at most [2^53], and exactly the arithmetic mean of the two middle
    elements when the magnitude of their sum is at most [2^53].  Elapsed
    times 1,2,3 give median 2, and 1,2,3,4 give median 2.5. *)
Theorem median_of_sorted_elapsed_times :
  (forall queryList : list Query,
      queryList <> [] ->
      let sorted := sort_Slice (map timeDiff queryList) in
      let len := Z.of_nat (List.length queryList) in
      StronglySorted Z.le sorted
      /\ Permutation (map timeDiff queryList) sorted
      /\ exists st,
          getQueriesStats queryList = Ok st
          /\ (len mod 2 = 1 ->
              exists m,
                nth_error sorted (Z.to_nat (len / 2)) = Some m
                /\ Median st = of_int m
                /\ (Z.abs m <= 2 ^ 53 -> is_ratio (Median st) m 1))
          /\ (len mod 2 = 0 ->
              exists a b,
                nth_error sorted (Z.to_nat (len / 2 - 1)) = Some a
                /\ nth_error sorted (Z.to_nat (len / 2)) = Some b
                /\ Median st = div (of_int (Int64.add a b)) (of_int 2)
                /\ (Z.abs (a + b) <= 2 ^ 53 ->
                    is_ratio (Median st) (a + b) 2)))
  /\ (exists st, getQueriesStats [Tests.q0 1; Tests.q0 2; Tests.q0 3] = Ok st
                 /\ is_ratio (Median st) 2 1)
  /\ (exists st,
         getQueriesStats [Tests.q0 1; Tests.q0 2; Tests.q0 3; Tests.q0 4]
         = Ok st
         /\ is_ratio (Median st) 5 2).
Proof.
  split; [| split].
  - intros ql Hne sorted len.
    split; [apply sort_Slice_sorted |].
    split; [apply sort_Slice_perm |].
    rewrite getQueriesStats_by_diffs. unfold stats_of_diffs.
    rewrite stats_of_diffs_sorted. fold sorted.
    assert (Hlen : Z.of_nat (List.length sorted) = len).
    { unfold sorted, len. rewrite sort_Slice_length, length_map.
      reflexivity. }
    pose proof (median_of_cases sorted
                  (sort_nonempty _ (map_nonempty timeDiff ql Hne))) as Hc.
    cbn zeta in Hc. rewrite Hlen in Hc.
    destruct Hc as [[Hodd [m [Hm Hmed]]] | [Heven [_ [a [b [Ha [Hb Hmed]]]]]]];
      rewrite Hmed; cbn [bind]; eexists; (split; [reflexivity |]);
      cbn [Median]; split; intros Hpar; try lia.
    + exists m. repeat split; try assumption.
      intros Hr. rewrite of_int_exact by assumption.
      cbn [is_ratio]. lia.
    + exists a, b. repeat split; try assumption.
      intros Hr. unfold Int64.add.
      rewrite wrap_small
        by (unfold Int64.in_range, Int64.min_int, Int64.max_int; lia).
      apply half_exact. exact Hr.
  - eexists. split; [vm_compute; reflexivity |]. vm_compute. reflexivity.
  - eexists. split; [vm_compute; reflexivity |]. vm_compute. reflexivity.
Qed.

Lemma median_of_sorted_elapsed_times_witness :
  [Tests.q0 7; Tests.q0 3; Tests.q0 5; Tests.q0 4] <> []
  /\ exists st,
      getQueriesStats [Tests.q0 7; Tests.q0 3; Tests.q0 5; Tests.q0 4] = Ok st
      /\ (4 mod 2 = 0 ->
          exists a b,
            nth_error [3; 4; 5; 7] (Z.to_nat (4 / 2 - 1)) = Some a
            /\ nth_error [3; 4; 5; 7] (Z.to_nat (4 / 2)) = Some b
            /\ Median st = div (of_int (Int64.add a b)) (of_int 2)
            /\ (Z.abs (a + b) <= 2 ^ 53 -> is_ratio (Median st) (a + b) 2)).
Proof.
  assert (Hne : [Tests.q0 7; Tests.q0 3; Tests.q0 5; Tests.q0 4] <> [])
    by discriminate.
  split; [exact Hne |].
  destruct (proj1 median_of_sorted_elapsed_times _ Hne)
    as [_ [_ [st [Hst [_ Heven]]]]].
  exists st. split; [exact Hst | exact Heven].
Defined.

(** Two elapsed times of [2^62] ms: the [int64] sum of the two middle
    elements wraps around, and the median is [-2^62], not their mean. *)
Lemma median_of_sorted_elapsed_times_counterexample :
  sort_Slice (map timeDiff [Tests.q0 (2 ^ 62); Tests.q0 (2 ^ 62)])
  = [2 ^ 62; 2 ^ 62]
  /\ exists st,
      getQueriesStats [Tests.q0 (2 ^ 62); Tests.q0 (2 ^ 62)] = Ok st
      /\ ~ is_ratio (Median st) (2 ^ 62 + 2 ^ 62) 2
      /\ is_ratio (Median st) (- 2 ^ 62) 1.
Proof.
  split; [vm_compute; reflexivity |].
  eexists. split; [vm_compute; reflexivity |].
  split.
  - cbn [Median is_ratio]. vm_compute. discriminate.
  - vm_compute. reflexivity.
Qed.

(** [float64(n)] for a positive count: exact up to [2^53], and never
    below [2^53] beyond. *)
Lemma of_int_count (n : Z) :
  1 <= n ->
  (of_int n = PInf /\ 2 ^ 53 < n)
  \/ exists N, of_int n = Fin N /\ 0 < N
                /\ (n <= 2 ^ 53 -> N = n * one_units)
                /\ (2 ^ 53 < n -> 2 ^ 53 * one_units <= N).
Proof.
  intros Hn. pose proof one_units_pos as HU.
  destruct (Z_le_gt_dec n (2 ^ 53)) as [Hs | Hl].
  - right. exists (n * one_units).
    rewrite of_int_exact by lia. repeat split; nia.
  - unfold of_int, round.
    assert (Hpos : 0 < n * one_units) by nia.
    rewrite Z.abs_eq, Z.sgn_pos by lia.
    assert (Hlow : 2 ^ 53 * one_units <= round_mag (n * one_units) 1).
    { apply round_mag_lower; try lia.
      - rewrite one_units_eq. apply representable_scaled; lia.
      - nia. }
    destruct (overflow_units <=? round_mag (n * one_units) 1).
    + left. destruct (Z.ltb_spec (n * one_units) 0); [lia |].
      split; [reflexivity | lia].
    + right. eexists. split; [reflexivity |]. repeat split; nia.
Qed.

(** The mean of integers that lie between [f] and [m] and whose sum is
    exact lies between [f] and [m] after rounding. *)
Lemma average_between (S n f m : Z) :
  1 <= n -> Z.abs S <= 2 ^ 53 -> Z.abs f <= 2 ^ 53 -> Z.abs m <= 2 ^ 53 ->
  0 <= m -> f * n <= S <= m * n ->
  int_le f (div (Fin (S * one_units)) (of_int n))
  /\ le_int (div (Fin (S * one_units)) (of_int n)) m.
Proof.
  intros Hn HS Hf Hm Hm0 [Hlo Hhi]. pose proof one_units_pos as HU.
  assert (Hbig : 2 ^ 53 < n -> f <= 0).
  { intros Hl. destruct (Z_le_gt_dec f 0); [assumption | nia]. }
  destruct (of_int_count n Hn) as [[Hinf Hl] | [N [HN [HN0 [Hex Hge]]]]].
  - rewrite Hinf. cbn [div int_le le_int]. specialize (Hbig Hl). nia.
  - rewrite HN. apply div_between; try assumption.
    destruct (Z_le_gt_dec n (2 ^ 53)) as [Hs | Hl].
    + rewrite (Hex Hs). nia.
    + specialize (Hbig ltac:(lia)). specialize (Hge ltac:(lia)).
      assert (Hsu : - (2 ^ 53 * one_units) <= S * one_units
                    <= 2 ^ 53 * one_units) by nia.
      destruct (Z.lt_trichotomy S 0) as [Sn | [-> | Sp]].
      * assert (f <= -1) by nia. nia.
      * nia.
      * assert (1 <= m) by nia. nia.
Qed.

(** C5 (as amended).  For every non-empty query list whose elapsed times
    [End - Start] have magnitudes that sum to at most [2^53], the
    statistics satisfy fastest <= median <= slowest and
    fastest <= average <= slowest. *)
Theorem statistics_are_ordered (queryList : list Query) :
  queryList <> [] ->
  sum_abs (map timeDiff queryList) <= 2 ^ 53 ->
  exists st,
    getQueriesStats queryList = Ok st
    /\ int_le (Fastest st) (Median st) /\ le_int (Median st) (Slowest st)
    /\ int_le (Fastest st) (Average st) /\ le_int (Average st) (Slowest st).
Proof.
  intros Hne Hsum. pose proof one_units_pos as HU.
  rewrite getQueriesStats_by_diffs. unfold stats_of_diffs.
  rewrite stats_of_diffs_sorted.
  set (ds := map timeDiff queryList) in *.
  set (st := fold_left loop_body_diff ds loop_init).
  assert (Hds : ds <> []) by (apply map_nonempty; exact Hne).
  (* fastest and slowest bound every elapsed time and are bounded *)
  destruct (loop_fastest ds loop_init) as [Hf1 [Hf2 Hf3]].
  destruct (loop_slowest ds loop_init) as [Hs1 [Hs2 Hs3]].
  fold st in Hf1, Hf2, Hf3, Hs1, Hs2, Hs3.
  cbn [loop_init l_fastest l_slowest] in Hf1, Hf3, Hs1, Hs3.
  set (f := l_fastest st) in *. set (m := l_slowest st) in *.
  assert (Hfin : In f ds).
  { destruct Hf3 as [Hf3 | Hf3]; [| exact Hf3]. exfalso.
    destruct ds as [| d ds']; [contradiction |].
    pose proof (sum_abs_In (d :: ds') d (or_introl eq_refl)).
    apply Forall_inv in Hf2. unfold Int64.max_int in Hf3. lia. }
  assert (Hfa : Z.abs f <= 2 ^ 53)
    by (pose proof (sum_abs_In ds f Hfin); lia).
  assert (Hma : Z.abs m <= 2 ^ 53).
  { destruct Hs3 as [-> | Hs3]; [cbn; lia |].
    pose proof (sum_abs_In ds m Hs3). lia. }
  assert (Hall : Forall (fun d => f <= d <= m) ds).
  { rewrite Forall_forall in *. intros d Hd.
    split; [apply Hf2 | apply Hs2]; exact Hd. }
  assert (Hin : forall i x, nth_error (sort_Slice ds) i = Some x ->
                            In x ds).
  { intros i x Hx. eapply Permutation_in.
    - apply Permutation_sym, sort_Slice_perm.
    - eapply nth_error_In. exact Hx. }
  (* the median *)
  pose proof (median_of_cases (sort_Slice ds) (sort_nonempty ds Hds)) as Hc.
  cbn zeta in Hc.
  assert (Hmedian : exists med,
             median_of (sort_Slice ds) = Ok med
             /\ int_le f med /\ le_int med m).
  { destruct Hc as [[_ [x [Hx Hmed]]] | [_ [Hhalf1 [a [b [Ha [Hb Hmed]]]]]]].
    - exists (of_int x). split; [exact Hmed |].
      pose proof (Hin _ _ Hx) as Hxin.
      pose proof (sum_abs_In ds x Hxin).
      rewrite Forall_forall in Hall. specialize (Hall x Hxin).
      rewrite of_int_exact by lia. cbn [int_le le_int]. nia.
    - eexists. split; [exact Hmed |].
      pose proof (Hin _ _ Ha) as Hain. pose proof (Hin _ _ Hb) as Hbin.
      assert (Hab : Z.abs a + Z.abs b <= sum_abs (sort_Slice ds)).
      { apply sum_abs_adjacent with
          (i := Z.to_nat (Z.of_nat (List.length (sort_Slice ds)) / 2 - 1)).
        - exact Ha.
        - replace (S (Z.to_nat (Z.of_nat (List.length (sort_Slice ds)) / 2 - 1)))
            with (Z.to_nat (Z.of_nat (List.length (sort_Slice ds)) / 2));
            [exact Hb |].
          lia. }
      rewrite <- (sum_abs_perm ds (sort_Slice ds) (sort_Slice_perm ds)) in Hab.
      rewrite Forall_forall in Hall.
      pose proof (Hall a Hain). pose proof (Hall b Hbin).
      assert (Hr : Z.abs (a + b) <= 2 ^ 53) by lia.
      unfold Int64.add.
      rewrite wrap_small
        by (unfold Int64.in_range, Int64.min_int, Int64.max_int; lia).
      pose proof (half_exact (a + b) Hr) as Hhalf.
      destruct (div (of_int (a + b)) (of_int 2)) as [x | | |];
        cbn [is_ratio] in Hhalf; try contradiction.
      cbn [int_le le_int]. nia. }
  destruct Hmedian as [med [Hmed [Hm1 Hm2]]].
  rewrite Hmed. cbn [bind].
  eexists. split; [reflexivity |].
  cbn [Fastest Median Slowest Average]. fold f m.
  split; [exact Hm1 |]. split; [exact Hm2 |].
  (* the average *)
  assert (Havg : l_average st = Fin ((0 + sum ds) * one_units)).
  { apply loop_average; [reflexivity | cbn; lia]. }
  rewrite Havg. cbn [Z.add].
  apply average_between; try assumption.
  - destruct ds; [contradiction | cbn [List.length]; lia].
  - pose proof (sum_le_sum_abs ds). lia.
  - apply sum_between. exact Hall.
Qed.

Lemma statistics_are_ordered_witness :
  [Tests.q0 1; Tests.q0 2; Tests.q0 3; Tests.q0 4] <> []
  /\ sum_abs (map timeDiff [Tests.q0 1; Tests.q0 2; Tests.q0 3; Tests.q0 4])
     <= 2 ^ 53
  /\ exists st,
      getQueriesStats [Tests.q0 1; Tests.q0 2; Tests.q0 3; Tests.q0 4] = Ok st
      /\ int_le (Fastest st) (Median st) /\ le_int (Median st) (Slowest st)
      /\ int_le (Fastest st) (Average st) /\ le_int (Average st) (Slowest st).
Proof.
  assert (Hne : [Tests.q0 1; Tests.q0 2; Tests.q0 3; Tests.q0 4] <> [])
    by discriminate.
  assert (Hsum : sum_abs (map timeDiff
                   [Tests.q0 1; Tests.q0 2; Tests.q0 3; Tests.q0 4])
                 <= 2 ^ 53)
    by (vm_compute; discriminate).
  split; [exact Hne |]. split; [exact Hsum |].
  exact (statistics_are_ordered _ Hne Hsum).
Defined.

(** Two elapsed times of [2^62] ms: the fastest is [2^62] and the median
    is [-2^62]. *)
Lemma statistics_are_ordered_counterexample :
  exists st,
    getQueriesStats [Tests.q0 (2 ^ 62); Tests.q0 (2 ^ 62)] = Ok st
    /\ Fastest st = 2 ^ 62
    /\ ~ int_le (Fastest st) (Median st).
Proof.
  eexists. split; [vm_compute; reflexivity |].
  split; [reflexivity |].
  cbn [Fastest Median int_le]. vm_compute. intros H. apply H. reflexivity.
Qed.

(** C10.  [getQueriesStats] depends on its input only through the
    sequence of elapsed times [End - Start]: two query lists of equal
    length whose elapsed times agree position by position give the same
    result, whatever their query texts, steps and absolute times.  (The
    aggregator is a function of its argument, so calling it again on the
    same list gives the same result.) *)
Theorem stats_depend_on_elapsed_times_only (l1 l2 : list Query) :
  Forall2 (fun q1 q2 => timeDiff q1 = timeDiff q2) l1 l2 ->
  getQueriesStats l1 = getQueriesStats l2.
Proof.
  intros H. rewrite !getQueriesStats_by_diffs. f_equal.
  induction H as [| q1 q2 l1 l2 Hq _ IH]; cbn [map].
  - reflexivity.
  - rewrite Hq, IH. reflexivity.
Qed.

Lemma stats_depend_on_elapsed_times_only_witness :
  Forall2 (fun q1 q2 => timeDiff q1 = timeDiff q2)
    [mkQuery "up" 10 15 1; mkQuery "rate" 0 7 2]
    [mkQuery "down" 100 105 60; mkQuery "sum" (-3) 4 0]
  /\ getQueriesStats [mkQuery "up" 10 15 1; mkQuery "rate" 0 7 2]
     = getQueriesStats [mkQuery "down" 100 105 60; mkQuery "sum" (-3) 4 0].
Proof.
  assert (H : Forall2 (fun q1 q2 => timeDiff q1 = timeDiff q2)
                [mkQuery "up" 10 15 1; mkQuery "rate" 0 7 2]
                [mkQuery "down" 100 105 60; mkQuery "sum" (-3) 4 0])
    by (repeat constructor).
  split; [exact H |].
  exact (stats_depend_on_elapsed_times_only _ _ H).
Defined.

End StatsClaims.

(** ** The HTTP client *)

Module ClientClaims.

(** The URL that [getHTTPQuery] leaves in the client. *)
Definition url_of_query (env : Env) (c : Client) (q : Query) : URL :=
  let tz t := zone_offset env (t / time_Second) in
  let t_start := Int64.mul (q_Start q) time_Millisecond in
  let t_end := Int64.mul (q_End q) time_Millisecond in
  {| Scheme := Scheme (c_URL c);
     Host := Host (c_URL c);
     Path := "/api/" ++ c_Version c ++ "/query_range";
     RawQuery :=
       Values_Encode
         [("query", q_Query q);
          ("start", Format_RFC3339 t_start (tz t_start));
          ("end", Format_RFC3339 t_end (tz t_end));
          ("step", itoa (q_Step q))] |}.

Lemma getHTTPQuery_begin_client (env : Env) (c : Client) (q : Query)
    (w : World) :
  snd (fst (getHTTPQuery_begin env c q w))
  = {| c_Client := c_Client c;
       c_URL := url_of_query env c q;
       c_Version := c_Version c |}.
Proof. reflexivity. Qed.

Lemma getHTTPQuery_begin_world (env : Env) (c : Client) (q : Query)
    (w : World) :
  snd (getHTTPQuery_begin env c q w)
  = {| requests := (requests w ++ [URL_String (url_of_query env c q)])%list;
       clock_reads := S (clock_reads w) |}.
Proof. reflexivity. Qed.

Lemma getHTTPQuery_end_world (env : Env) (cl : HttpClient) (oc : open_call)
    (w : World) :
  snd (getHTTPQuery_end env cl oc w)
  = {| requests := requests w; clock_reads := S (clock_reads w) |}.
Proof.
  unfold getHTTPQuery_end, time_Now.
  destruct (Get_receive env cl (oc_request oc)) as [resp err]. reflexivity.
Qed.

Lemma getHTTPQuery_client (env : Env) (c : Client) (q : Query) (w : World) :
  snd (fst (getHTTPQuery env c q w))
  = {| c_Client := c_Client c;
       c_URL := url_of_query env c q;
       c_Version := c_Version c |}.
Proof.
  unfold getHTTPQuery.
  destruct (getHTTPQuery_begin env c q w) as [[oc c'] w1] eqn:E.
  pose proof (getHTTPQuery_begin_client env c q w) as Hc.
  rewrite E in Hc. cbn [fst snd] in Hc. subst c'.
  destruct (getHTTPQuery_end env _ oc w1). reflexivity.
Qed.

Lemma getHTTPQuery_world (env : Env) (c : Client) (q : Query) (w : World) :
  snd (getHTTPQuery env c q w)
  = {| requests := (requests w ++ [URL_String (url_of_query env c q)])%list;
       clock_reads := S (S (clock_reads w)) |}.
Proof.
  unfold getHTTPQuery.
  destruct (getHTTPQuery_begin env c q w) as [[oc c'] w1] eqn:E.
  pose proof (getHTTPQuery_begin_world env c q w) as Hw.
  rewrite E in Hw. cbn [snd] in Hw. subst w1.
  pose proof (getHTTPQuery_end_world env (c_Client c') oc
                {| requests := (requests w
                                ++ [URL_String (url_of_query env c q)])%list;
                   clock_reads := S (clock_reads w) |}) as Hw.
  destruct (getHTTPQuery_end env (c_Client c') oc _) as [res w2].
  cbn [snd] in Hw. subst w2. reflexivity.
Qed.

(** C9 (as amended).  Every call of [getHTTPQuery] sends exactly one
    request through [Get] and leaves the client's [Client] and [Version]
    and the URL's [Scheme] and [Host] as they were; it overwrites the
    shared URL's [Path] with [/api/<Version>/query_range] and its
    [RawQuery] with the encoded parameters of the query. *)
Theorem getHTTPQuery_frame (env : Env) (c : Client) (q : Query) (w : World) :
  let c' := snd (fst (getHTTPQuery env c q w)) in
  let w' := snd (getHTTPQuery env c q w) in
  requests w' = (requests w ++ [URL_String (c_URL c')])%list
  /\ c_Client c' = c_Client c
  /\ c_Version c' = c_Version c
  /\ Scheme (c_URL c') = Scheme (c_URL c)
  /\ Host (c_URL c') = Host (c_URL c)
  /\ Path (c_URL c') = "/api/" ++ c_Version c ++ "/query_range"
  /\ RawQuery (c_URL c') = RawQuery (url_of_query env c q).
Proof.
  cbn zeta. rewrite getHTTPQuery_client, getHTTPQuery_world.
  repeat split; reflexivity.
Qed.

(** The client and query of [TestURL_getHTTPQuery]: the URL of the shared
    client differs after the call, which is what that test asserts. *)
Lemma getHTTPQuery_frame_counterexample :
  c_URL (snd (fst (getHTTPQuery Tests.env_test
                     (mkClient ClientMock (mkURL "https" "promscale.xyz" "" "") "v1")
                     (mkQuery "some query" 100000 999999 50) world0)))
  <> mkURL "https" "promscale.xyz" "" "".
Proof. vm_compute. discriminate. Qed.

(** The scheme is always the name of the recognised prefix, or [https]. *)
Lemma newHTTPClient_scheme (host : string) :
  Scheme (c_URL (newHTTPClient host))
  = match getScheme host with
    | None => "https"
    | Some s => TrimRight s "://"
    end.
Proof. unfold newHTTPClient. destruct (getScheme host); reflexivity. Qed.

Lemma getScheme_cases (host : string) :
  getScheme host = None
  \/ (getScheme host = Some "http://" /\ TrimRight "http://" "://" = "http")
  \/ (getScheme host = Some "https://" /\ TrimRight "https://" "://" = "https")
  \/ (getScheme host = Some "ftp://" /\ TrimRight "ftp://" "://" = "ftp").
Proof.
  unfold getScheme, schemeRegex_FindString.
  destruct (String.prefix "https://" host);
    [right; right; left; split; reflexivity |].
  destruct (String.prefix "http://" host);
    [right; left; split; reflexivity |].
  destruct (String.prefix "ftp://" host);
    [right; right; right; split; reflexivity |].
  left. reflexivity.
Qed.

(** Without a recognised prefix the host is kept as it is. *)
Lemma newHTTPClient_no_scheme (host : string) :
  getScheme host = None ->
  c_URL (newHTTPClient host) = mkURL "https" host "" "".
Proof. intros H. unfold newHTTPClient. rewrite H. reflexivity. Qed.

(** With a recognised prefix the host is [TrimLeft host prefix]: the
    prefix is used as a set of characters. *)
Lemma newHTTPClient_host (host s : string) :
  getScheme host = Some s ->
  Host (c_URL (newHTTPClient host)) = TrimLeft host s.
Proof. intros H. unfold newHTTPClient. rewrite H. reflexivity. Qed.

(** C8.  The host [http://promscale.xyz]: the scheme is [http], but the
    URL host is [romscale.xyz]; the host without the prefix is
    [promscale.xyz].  [strings.TrimLeft] removes every leading character
    that occurs in [http://], and so also the [p] of the host name. *)
Theorem newHTTPClient_strips_leading_host_characters :
  getScheme "http://promscale.xyz" = Some "http://"
  /\ Scheme (c_URL (newHTTPClient "http://promscale.xyz")) = "http"
  /\ Host (c_URL (newHTTPClient "http://promscale.xyz")) = "romscale.xyz"
  /\ TrimPrefix "http://promscale.xyz" "http://" = "promscale.xyz".
Proof. repeat split; reflexivity. Qed.

End ClientClaims.

(** ** The dispatcher *)

Module DispatcherClaims.

Import ClientClaims Tests.

Definition b2z (b : bool) : Z := if b then 1 else 0.

(** Number of goroutines that satisfy [P]. *)
Definition count (P : Query * pc -> bool) (l : list (Query * pc)) : Z :=
  Z.of_nat (List.length (filter P l)).

(** The goroutine has not yet run its [wg.Add(-1)]. *)
Definition not_finished (g : Query * pc) : bool :=
  match snd g with
  | Finished _ => false
  | _ => true
  end.

(** The goroutine has sent its request. *)
Definition past_call (g : Query * pc) : bool :=
  match snd g with
  | Pending | Acquired => false
  | _ => true
  end.

(** The goroutine has left its body by a panic. *)
Definition panicking (g : Query * pc) : bool :=
  match snd g with
  | Unwinding (Some _) | Released (Some _) | Finished (Some _) => true
  | _ => false
  end.

Lemma count_app (P : Query * pc -> bool) (l1 l2 : list (Query * pc)) :
  count P (l1 ++ l2) = count P l1 + count P l2.
Proof. unfold count. rewrite filter_app, length_app. lia. Qed.

Lemma count_cons (P : Query * pc -> bool) (g : Query * pc)
    (l : list (Query * pc)) :
  count P (g :: l) = b2z (P g) + count P l.
Proof.
  unfold count. cbn [filter]. destruct (P g); cbn [List.length b2z]; lia.
Qed.

Lemma count_nonneg (P : Query * pc -> bool) (l : list (Query * pc)) :
  0 <= count P l.
Proof. unfold count. lia. Qed.

Lemma goroutines_split (l : list (Query * pc)) (i : nat) (old : Query * pc) :
  nth_error l i = Some old ->
  l = (firstn i l ++ old :: skipn (S i) l)%list.
Proof.
  revert i. induction l as [| g l IH]; intros i H.
  - destruct i; discriminate.
  - destruct i as [| i].
    + injection H as ->. reflexivity.
    + change (nth_error l i = Some old) in H.
      cbn [firstn skipn app]. f_equal. apply IH. exact H.
Qed.

(** Replacing goroutine [i] changes a count by what [i] contributes. *)
Lemma count_set (P : Query * pc -> bool) (s : Bench) (i : nat)
    (g old : Query * pc) :
  nth_error (b_goroutines s) i = Some old ->
  count P (set_goroutine i g s)
  = count P (b_goroutines s) - b2z (P old) + b2z (P g).
Proof.
  intros H. unfold set_goroutine.
  rewrite (goroutines_split _ _ _ H) at 3.
  rewrite !count_app, !count_cons. lia.
Qed.

Lemma nth_set (s : Bench) (i : nat) (g old : Query * pc) :
  nth_error (b_goroutines s) i = Some old ->
  nth_error (set_goroutine i g s) i = Some g.
Proof.
  intros H. unfold set_goroutine.
  assert (Hlen : List.length (firstn i (b_goroutines s)) = i).
  { apply firstn_length_le. apply Nat.lt_le_incl.
    apply nth_error_Some. rewrite H. discriminate. }
  rewrite nth_error_app2 by (rewrite Hlen; apply Nat.le_refl).
  rewrite Hlen, Nat.sub_diag. reflexivity.
Qed.

(** What holds in every state of a run. *)
Record invariant (capacity : Z) (sent : Z) (s : Bench) : Prop := mkInvariant {
  inv_permits : b_workers s = in_flight s;
  inv_bound : b_workers s <= capacity;
  inv_wg : b_wg s = count not_finished (b_goroutines s);
  inv_requests :
    Z.of_nat (List.length (requests (b_world s)))
    = sent + count past_call (b_goroutines s);
  inv_errors :
    Z.of_nat (List.length (b_errorList s))
    <= count panicking (b_goroutines s)
}.

Lemma in_flight_count (s : Bench) :
  in_flight s = count holds_permit (b_goroutines s).
Proof. reflexivity. Qed.

Ltac invariant_after E :=
  constructor; cbn [b_workers b_wg b_world b_goroutines b_errorList];
  rewrite ?in_flight_count; cbn [b_goroutines];
  rewrite ?(count_set _ _ _ _ _ E);
  cbn [requests holds_permit not_finished past_call panicking snd b2z];
  rewrite ?length_app; cbn [List.length]; lia.

Lemma step_invariant (env : Env) (capacity sent : Z) (s : Bench) (i : nat) :
  invariant capacity sent s -> invariant capacity sent (step env capacity s i).
Proof.
  intros [Hp Hb Hw Hr He]. rewrite in_flight_count in Hp.
  unfold step, goroutine_step.
  destruct (b_crashed s) as [c |]; [constructor; assumption |].
  destruct (nth_error (b_goroutines s) i) as [[q p] |] eqn:E;
    [| constructor; assumption].
  destruct p as [| | oc | [r | e] | p | p | [p |]].
  - (* send on [workers] *)
    destruct (Z.ltb_spec (b_workers s) capacity);
      [| constructor; assumption].
    invariant_after E.
  - (* the request leaves *)
    pose proof (getHTTPQuery_begin_world env (b_client s) q (b_world s))
      as Hworld.
    destruct (getHTTPQuery_begin env (b_client s) q (b_world s))
      as [[oc c'] w'].
    cbn [snd] in Hworld. subst w'.
    invariant_after E.
  - (* the reply arrives *)
    pose proof (getHTTPQuery_end_world env (c_Client (b_client s)) oc
                  (b_world s)) as Hworld.
    destruct (getHTTPQuery_end env (c_Client (b_client s)) oc (b_world s))
      as [r w'].
    cbn [snd] in Hworld. subst w'.
    destruct r; invariant_after E.
  - invariant_after E.
  - invariant_after E.
  - (* receive from [workers] *)
    destruct (Z.ltb_spec 0 (b_workers s)); [| constructor; assumption].
    destruct p; invariant_after E.
  - destruct p; invariant_after E.
  - constructor; cbn [b_workers b_wg b_world b_goroutines b_errorList];
      rewrite ?in_flight_count; assumption.
  - constructor; rewrite ?in_flight_count; assumption.
Qed.

Lemma count_le (P Q : Query * pc -> bool) (l : list (Query * pc)) :
  (forall g, P g = true -> Q g = true) -> count P l <= count Q l.
Proof.
  intros HPQ. induction l as [| g l IH]; [reflexivity |].
  rewrite !count_cons. specialize (HPQ g).
  destruct (P g); [rewrite HPQ by reflexivity |]; destruct (Q g);
    cbn [b2z]; lia.
Qed.

Lemma run_invariant (env : Env) (capacity sent : Z) (sched : list nat)
    (s : Bench) :
  invariant capacity sent s -> invariant capacity sent (run env capacity sched s).
Proof.
  revert s. induction sched as [| i sched IH]; intros s H; cbn [run fold_left].
  - exact H.
  - apply IH. apply step_invariant. exact H.
Qed.

Lemma count_pending (P : Query * pc -> bool) (queries : list Query) :
  (forall q, P (q, Pending) = false) ->
  count P (map (fun q => (q, Pending)) queries) = 0.
Proof.
  intros HP. induction queries as [| q queries IH]; [reflexivity |].
  cbn [map]. rewrite count_cons, HP, IH. reflexivity.
Qed.

Lemma start_invariant (env : Env) (capacity : Z) (c : Client)
    (queries : list Query) (w : World) :
  0 <= capacity ->
  invariant capacity (Z.of_nat (List.length (requests w)))
            (bench_initial env c queries w).
Proof.
  intros Hcap. unfold bench_initial, time_Now.
  constructor; cbn [b_workers b_wg b_world b_goroutines requests b_errorList];
    rewrite ?in_flight_count; cbn [b_goroutines].
  - rewrite count_pending; reflexivity.
  - lia.
  - induction queries as [| q queries IH]; [reflexivity |].
    cbn [map List.length]. rewrite count_cons, <- IH.
    cbn [not_finished snd b2z]. lia.
  - rewrite count_pending; [lia | reflexivity].
  - rewrite count_pending; [reflexivity | reflexivity].
Qed.

(** *** A goroutine on its own

    What the next steps of one goroutine do, whatever the others have
    done so far. *)

(** The process has not crashed and goroutine [i] stands at [p], with [q]
    in its parameter. *)
Definition stands (s : Bench) (i : nat) (q : Query) (p : pc) : Prop :=
  b_crashed s = None /\ nth_error (b_goroutines s) i = Some (q, p).

(** How a goroutine leaves its body after the call has returned. *)
Definition leaves_with (r : call_result) : option panic :=
  match r with
  | Success _ => None
  | Failure _ => Some NilDereference
  end.

Lemma own_step_acquired (env : Env) (capacity : Z) (s : Bench) (i : nat)
    (q : Query) :
  stands s i q Acquired ->
  exists oc,
    stands (step env capacity s i) i q (Calling oc)
    /\ b_workers (step env capacity s i) = b_workers s
    /\ b_wg (step env capacity s i) = b_wg s.
Proof.
  intros [Hc Hi]. unfold step, goroutine_step. rewrite Hc, Hi.
  destruct (getHTTPQuery_begin env (b_client s) q (b_world s)) as [[oc c'] w'].
  exists oc. repeat split. cbn [b_goroutines]. eapply nth_set. exact Hi.
Qed.

Lemma own_step_calling (env : Env) (capacity : Z) (s : Bench) (i : nat)
    (q : Query) (oc : open_call) :
  stands s i q (Calling oc) ->
  ((exists r, stands (step env capacity s i) i q (Returned r))
   \/ (exists p, stands (step env capacity s i) i q (Unwinding (Some p))))
  /\ b_workers (step env capacity s i) = b_workers s
  /\ b_wg (step env capacity s i) = b_wg s.
Proof.
  intros [Hc Hi]. unfold step, goroutine_step. rewrite Hc, Hi.
  destruct (getHTTPQuery_end env (c_Client (b_client s)) oc (b_world s))
    as [[r | p] w'].
  - split; [left; exists r | split; reflexivity].
    split; [reflexivity |]. cbn [b_goroutines]. eapply nth_set. exact Hi.
  - split; [right; exists p | split; reflexivity].
    split; [reflexivity |]. cbn [b_goroutines]. eapply nth_set. exact Hi.
Qed.

Lemma own_step_returned (env : Env) (capacity : Z) (s : Bench) (i : nat)
    (q : Query) (r : call_result) :
  stands s i q (Returned r) ->
  (exists q', stands (step env capacity s i) i q' (Unwinding (leaves_with r)))
  /\ b_workers (step env capacity s i) = b_workers s
  /\ b_wg (step env capacity s i) = b_wg s.
Proof.
  intros [Hc Hi]. unfold step, goroutine_step. rewrite Hc, Hi.
  destruct r as [r | e]; cbn [leaves_with];
    (split; [eexists | split; reflexivity]);
    (split; [reflexivity |]); cbn [b_goroutines]; eapply nth_set; exact Hi.
Qed.

Lemma own_step_unwinding (env : Env) (capacity : Z) (s : Bench) (i : nat)
    (q : Query) (p : option panic) :
  stands s i q (Unwinding p) -> 0 < b_workers s ->
  stands (step env capacity s i) i q (Released p)
  /\ b_workers (step env capacity s i) = b_workers s - 1
  /\ b_wg (step env capacity s i) = b_wg s.
Proof.
  intros [Hc Hi] Hpos. unfold step, goroutine_step. rewrite Hc, Hi.
  destruct (Z.ltb_spec 0 (b_workers s)); [| lia].
  repeat split. cbn [b_goroutines]. eapply nth_set. exact Hi.
Qed.

Lemma own_step_released (env : Env) (capacity : Z) (s : Bench) (i : nat)
    (q : Query) (p : option panic) :
  stands s i q (Released p) ->
  stands (step env capacity s i) i q (Finished p)
  /\ b_workers (step env capacity s i) = b_workers s
  /\ b_wg (step env capacity s i) = b_wg s - 1.
Proof.
  intros [Hc Hi]. unfold step, goroutine_step. rewrite Hc, Hi.
  repeat split. cbn [b_goroutines]. eapply nth_set. exact Hi.
Qed.

(** The panic of a goroutine ends the process only after its deferred
    function has run to the end. *)
Lemma own_step_finished (env : Env) (capacity : Z) (s : Bench) (i : nat)
    (q : Query) (p : panic) :
  stands s i q (Finished (Some p)) ->
  b_crashed (step env capacity s i) = Some p.
Proof.
  intros [Hc Hi]. unfold step, goroutine_step. rewrite Hc, Hi. reflexivity.
Qed.

Lemma run_repeat_succ (env : Env) (capacity : Z) (i k : nat) (s : Bench) :
  run env capacity (repeat i (S k)) s
  = run env capacity (repeat i k) (step env capacity s i).
Proof. reflexivity. Qed.

(** From the return of [getHTTPQuery], with a response or with an error,
    two steps of the goroutine give the permit back, and only the third
    is [wg.Add(-1)]. *)
Lemma returned_call_releases (env : Env) (capacity : Z) (s : Bench) (i : nat)
    (q : Query) (r : call_result) :
  stands s i q (Returned r) -> 0 < b_workers s ->
  exists q',
    stands (run env capacity (repeat i 2) s) i q' (Released (leaves_with r))
    /\ b_workers (run env capacity (repeat i 2) s) = b_workers s - 1
    /\ b_wg (run env capacity (repeat i 2) s) = b_wg s
    /\ stands (run env capacity (repeat i 3) s) i q' (Finished (leaves_with r))
    /\ b_workers (run env capacity (repeat i 3) s) = b_workers s - 1
    /\ b_wg (run env capacity (repeat i 3) s) = b_wg s - 1.
Proof.
  intros Hs Hpos.
  destruct (own_step_returned env capacity s i q r Hs)
    as [[q' H1] [W1 G1]].
  destruct (own_step_unwinding env capacity _ i q' _ H1 ltac:(lia))
    as [H2 [W2 G2]].
  destruct (own_step_released env capacity _ i q' _ H2) as [H3 [W3 G3]].
  exists q'.
  change (run env capacity (repeat i 2) s)
    with (step env capacity (step env capacity s i) i).
  change (run env capacity (repeat i 3) s)
    with (step env capacity (step env capacity (step env capacity s i) i) i).
  repeat split; try apply H2; try apply H3; lia.
Qed.

(** A goroutine that holds a permit gives it back within four steps of
    its own, before its [wg.Add(-1)] and with the process still alive. *)
Lemma holder_releases (env : Env) (capacity : Z) (s : Bench) (i : nat)
    (q : Query) (p0 : pc) :
  stands s i q p0 -> holds_permit (q, p0) = true -> 0 < b_workers s ->
  exists k q' p,
    (1 <= k <= 4)%nat
    /\ stands (run env capacity (repeat i k) s) i q' (Released p)
    /\ b_workers (run env capacity (repeat i k) s) = b_workers s - 1
    /\ b_wg (run env capacity (repeat i k) s) = b_wg s.
Proof.
  intros Hs Hh Hpos.
  assert (Hunw : forall s1 q1 p1,
             stands s1 i q1 (Unwinding p1) -> b_workers s1 = b_workers s ->
             b_wg s1 = b_wg s ->
             stands (run env capacity (repeat i 1) s1) i q1 (Released p1)
             /\ b_workers (run env capacity (repeat i 1) s1) = b_workers s - 1
             /\ b_wg (run env capacity (repeat i 1) s1) = b_wg s).
  { intros s1 q1 p1 H1 W1 G1.
    destruct (own_step_unwinding env capacity s1 i q1 p1 H1 ltac:(lia))
      as [H2 [W2 G2]].
    change (run env capacity (repeat i 1) s1) with (step env capacity s1 i).
    repeat split; try apply H2; lia. }
  assert (Hret : forall s1 q1 r,
             stands s1 i q1 (Returned r) -> b_workers s1 = b_workers s ->
             b_wg s1 = b_wg s ->
             exists q',
               stands (run env capacity (repeat i 2) s1) i q'
                      (Released (leaves_with r))
               /\ b_workers (run env capacity (repeat i 2) s1) = b_workers s - 1
               /\ b_wg (run env capacity (repeat i 2) s1) = b_wg s).
  { intros s1 q1 r H1 W1 G1.
    destruct (returned_call_releases env capacity s1 i q1 r H1 ltac:(lia))
      as [q' [H2 [W2 [G2 _]]]].
    exists q'. repeat split; try apply H2; lia. }
  assert (Hcall : forall s1 oc,
             stands s1 i q (Calling oc) -> b_workers s1 = b_workers s ->
             b_wg s1 = b_wg s ->
             exists k q' p,
               (2 <= k <= 3)%nat
               /\ stands (run env capacity (repeat i k) s1) i q' (Released p)
               /\ b_workers (run env capacity (repeat i k) s1) = b_workers s - 1
               /\ b_wg (run env capacity (repeat i k) s1) = b_wg s).
  { intros s1 oc H1 W1 G1.
    destruct (own_step_calling env capacity s1 i q oc H1)
      as [[[r H2] | [p H2]] [W2 G2]].
    - destruct (Hret _ q r H2 ltac:(lia) ltac:(lia)) as [q' [H3 [W3 G3]]].
      exists 3%nat, q', (leaves_with r). rewrite run_repeat_succ.
      repeat split; try apply H3; try lia.
    - destruct (Hunw _ q _ H2 ltac:(lia) ltac:(lia)) as [H3 [W3 G3]].
      exists 2%nat, q, (Some p). rewrite run_repeat_succ.
      repeat split; try apply H3; try lia. }
  destruct p0 as [| | oc | r | p | p | p]; try discriminate.
  - destruct (own_step_acquired env capacity s i q Hs) as [oc [H1 [W1 G1]]].
    destruct (Hcall _ oc H1 W1 G1) as [k [q' [p [Hk [H2 [W2 G2]]]]]].
    exists (S k), q', p. rewrite run_repeat_succ.
    repeat split; try apply H2; try lia.
  - destruct (Hcall s oc Hs eq_refl eq_refl) as [k [q' [p [Hk H2]]]].
    exists k, q', p. split; [lia | exact H2].
  - destruct (Hret s q r Hs eq_refl eq_refl) as [q' H2].
    exists 2%nat, q', (leaves_with r). split; [lia | exact H2].
  - exists 1%nat, q, p. split; [lia |]. apply Hunw; [exact Hs | reflexivity ..].
Qed.

Lemma run_app (env : Env) (capacity : Z) (l1 l2 : list nat) (s : Bench) :
  run env capacity (l1 ++ l2)%list s
  = run env capacity l2 (run env capacity l1 s).
Proof. unfold run. apply fold_left_app. Qed.

(** C4.  For every capacity of at least one, every batch and every
    schedule: the calls of [getHTTPQuery] whose request is under way are
    never more than the goroutines that hold a permit (those between their
    send on [workers] and their receive from it), which are as many as
    the channel holds elements and never more than its capacity; requests
    have been sent only by goroutines that had taken a permit; and the
    wait-group counter counts the goroutines that have not completed.

    The permit is given back on every way out of the body, and before
    the goroutine counts as complete.  A goroutine that leaves its body,
    normally or by a panic, is never blocked on the receive.  Once
    [getHTTPQuery] has returned, with a response or with an error, the
    next two steps of the goroutine end in the receive from [workers]:
    the channel then holds one element less, one goroutine less holds a
    permit, the wait-group counter is as it was and the process has not
    crashed, also when the goroutine is panicking; only its third step
    is [wg.Add(-1)].  Every goroutine that holds a permit, wherever it
    stands, has given it back after at most four steps of its own.  And
    when the wait-group counter is zero, so that [wg.Wait()] returns, no
    permit is held. *)
Theorem permits_bound_calls_in_flight
    (env : Env) (capacity : Z) (c : Client) (queries : list Query)
    (w : World) (sched : list nat) :
  1 <= capacity ->
  let s := run env capacity sched (bench_initial env c queries w) in
  0 <= calls_under_way s <= in_flight s
  /\ in_flight s <= capacity
  /\ b_workers s = in_flight s
  /\ Z.of_nat (List.length (requests (b_world s)))
     = Z.of_nat (List.length (requests w)) + count past_call (b_goroutines s)
  /\ b_wg s = count not_finished (b_goroutines s)
  /\ (forall i q p,
         nth_error (b_goroutines s) i = Some (q, Unwinding p) ->
         b_crashed s = None ->
         exists s',
           goroutine_step env capacity i s = Some s'
           /\ b_workers s' = b_workers s - 1
           /\ nth_error (b_goroutines s') i = Some (q, Released p))
  /\ (forall i q r,
         nth_error (b_goroutines s) i = Some (q, Returned r) ->
         b_crashed s = None ->
         exists q',
           let released := run env capacity (repeat i 2) s in
           let complete := run env capacity (repeat i 3) s in
           b_crashed released = None
           /\ nth_error (b_goroutines released) i
              = Some (q', Released (leaves_with r))
           /\ b_workers released = b_workers s - 1
           /\ in_flight released = in_flight s - 1
           /\ b_wg released = b_wg s
           /\ b_crashed complete = None
           /\ nth_error (b_goroutines complete) i
              = Some (q', Finished (leaves_with r))
           /\ b_workers complete = b_workers s - 1
           /\ b_wg complete = b_wg s - 1)
  /\ (forall i q p0,
         nth_error (b_goroutines s) i = Some (q, p0) ->
         holds_permit (q, p0) = true ->
         b_crashed s = None ->
         exists k q' p,
           let released := run env capacity (repeat i k) s in
           (1 <= k <= 4)%nat
           /\ b_crashed released = None
           /\ nth_error (b_goroutines released) i = Some (q', Released p)
           /\ b_workers released = b_workers s - 1
           /\ in_flight released = in_flight s - 1
           /\ b_wg released = b_wg s)
  /\ (b_wg s = 0 -> b_workers s = 0 /\ in_flight s = 0).
Proof.
  intros Hcap s.
  assert (Hreach : forall l,
             invariant capacity (Z.of_nat (List.length (requests w)))
               (run env capacity l s)).
  { intros l. unfold s. rewrite <- run_app. apply run_invariant.
    apply start_invariant. lia. }
  pose proof (Hreach []) as [Hp Hb Hw Hr _].
  change (run env capacity [] s) with s in Hp, Hb, Hw, Hr.
  pose proof (count_nonneg in_call (b_goroutines s)) as H0.
  assert (Hcalls : calls_under_way s <= in_flight s).
  { apply (count_le in_call holds_permit).
    intros [q p]. destruct p; cbn; congruence. }
  change (count in_call (b_goroutines s)) with (calls_under_way s) in H0.
  assert (Hpos : forall i q p,
             nth_error (b_goroutines s) i = Some (q, p) ->
             holds_permit (q, p) = true -> 0 < b_workers s).
  { intros i q p Hi Hh. rewrite Hp, in_flight_count.
    rewrite (goroutines_split _ _ _ Hi), count_app, count_cons.
    pose proof (count_nonneg holds_permit (firstn i (b_goroutines s))).
    pose proof (count_nonneg holds_permit (skipn (S i) (b_goroutines s))).
    rewrite Hh. cbn [b2z]. lia. }
  assert (Hfl : forall l,
             b_workers (run env capacity l s) = b_workers s - 1 ->
             in_flight (run env capacity l s) = in_flight s - 1).
  { intros l Hl. destruct (Hreach l) as [Hp' _ _ _ _]. lia. }
  split; [lia |]. split; [lia |]. split; [exact Hp |].
  split; [exact Hr |]. split; [exact Hw |]. split; [| split; [| split]].
  - intros i q p Hi Hc.
    pose proof (Hpos i q _ Hi eq_refl) as Hlt.
    unfold goroutine_step. rewrite Hc, Hi.
    destruct (Z.ltb_spec 0 (b_workers s)); [| lia].
    eexists. split; [reflexivity |].
    cbn [b_workers b_goroutines]. split; [reflexivity |].
    eapply nth_set. exact Hi.
  - intros i q r Hi Hc.
    destruct (returned_call_releases env capacity s i q r (conj Hc Hi)
                (Hpos i q _ Hi eq_refl))
      as [q' [[C2 N2] [W2 [G2 [[C3 N3] [W3 G3]]]]]].
    exists q'. cbv zeta.
    repeat split; try assumption. apply Hfl. exact W2.
  - intros i q p0 Hi Hh Hc.
    destruct (holder_releases env capacity s i q p0 (conj Hc Hi) Hh
                (Hpos i q _ Hi Hh))
      as [k [q' [p [Hk [[C2 N2] [W2 G2]]]]]].
    exists k, q', p. cbv zeta.
    repeat split; try assumption; try lia. apply Hfl. exact W2.
  - intros Hzero.
    assert (Hle : in_flight s <= count not_finished (b_goroutines s)).
    { rewrite in_flight_count. apply (count_le holds_permit not_finished).
      intros [q p]. destruct p; cbn; congruence. }
    pose proof (count_nonneg holds_permit (b_goroutines s)) as Hnn.
    rewrite <- in_flight_count in Hnn. lia.
Qed.

Lemma permits_bound_calls_in_flight_witness :
  1 <= 2
  /\ calls_under_way (run env_up 2 [0; 1; 2; 0; 1; 2; 0]%nat
                        (bench_initial env_up cli [qa; qb; qa] world0)) = 1
  /\ in_flight (run env_up 2 [0; 1; 2; 0; 1; 2; 0]%nat
                  (bench_initial env_up cli [qa; qb; qa] world0)) = 2
  /\ in_flight (run env_up 2 [0; 1; 2; 0; 1; 2; 0; 0; 0]%nat
                  (bench_initial env_up cli [qa; qb; qa] world0)) = 1
  /\ 0 <= calls_under_way (run env_up 2 [0; 1; 2; 0; 1; 2; 0]%nat
                             (bench_initial env_up cli [qa; qb; qa] world0))
       <= in_flight (run env_up 2 [0; 1; 2; 0; 1; 2; 0]%nat
                       (bench_initial env_up cli [qa; qb; qa] world0))
  /\ in_flight (run env_up 2 [0; 1; 2; 0; 1; 2; 0]%nat
                  (bench_initial env_up cli [qa; qb; qa] world0)) <= 2.
Proof.
  assert (H : 1 <= 2) by lia.
  split; [exact H |].
  split; [vm_compute; reflexivity |]. split; [vm_compute; reflexivity |].
  split; [vm_compute; reflexivity |].
  destruct (permits_bound_calls_in_flight env_up 2 cli [qa; qb; qa] world0
              [0; 1; 2; 0; 1; 2; 0]%nat H) as [H1 [H2 _]].
  split; [exact H1 | exact H2].
Defined.

(** *** Batches that do not come back *)

Lemma nth_error_nil_none {A : Type} (i : nat) : nth_error (@nil A) i = None.
Proof. destruct i; reflexivity. Qed.

Lemma run_empty (env : Env) (capacity : Z) (sched : list nat) (s : Bench) :
  b_goroutines s = [] -> run env capacity sched s = s.
Proof.
  intros H. induction sched as [| i sched IH]; [reflexivity |].
  cbn [run fold_left]. unfold step at 2, goroutine_step.
  rewrite H, nth_error_nil_none.
  destruct (b_crashed s); exact IH.
Qed.

(** C3.  Zero queries: the median block of [getQueriesStats] reads
    [timeDiffs[-1]] of an empty slice and panics, and so does [benchmark]
    on an empty batch, for every capacity and every schedule (with a
    negative capacity it panics earlier, when it makes the channel). *)
Theorem empty_batch_panics :
  getQueriesStats [] = Panic (IndexOutOfRange (-1) 0)
  /\ forall (env : Env) (capacity : Z) (c : Client) (w : World)
            (sched : list nat),
      benchmark env capacity c [] w sched
      = BenchCrashed (if capacity <? 0 then MakechanSizeOutOfRange
                      else IndexOutOfRange (-1) 0).
Proof.
  split; [reflexivity |].
  intros env capacity c w sched. unfold benchmark, bench_start.
  destruct (capacity <? 0); [reflexivity |].
  rewrite run_empty by reflexivity. reflexivity.
Qed.

(** The first request fails in transport (a timeout); later ones succeed. *)
Definition env_first_times_out : Env :=
  {| reply := fun k _ =>
       match k with
       | O => (None, Some (ErrTransport "context deadline exceeded"))
       | S _ => (Some {| StatusCode := 200 |}, None)
       end;
     now := fun k => Z.of_nat k * time_Millisecond;
     zone_offset := fun _ => 0;
     open_file := fun _ => None |}.

(** The first request is answered with status 500. *)
Definition env_first_status_500 : Env :=
  {| reply := fun k _ =>
       match k with
       | O => (Some {| StatusCode := 500 |}, None)
       | S _ => (Some {| StatusCode := 200 |}, None)
       end;
     now := fun k => Z.of_nat k * time_Millisecond;
     zone_offset := fun _ => 0;
     open_file := fun _ => None |}.

(** Goroutine 0 runs to its end, then goroutine 1. *)
Definition one_after_the_other : list nat :=
  (repeat 0%nat 8 ++ repeat 1%nat 8)%list.

(** The states a batch of the single query [qa] goes through when its
    request times out. *)
Definition lone_failure_states : list Bench :=
  map (fun k => run env_first_times_out 1 (repeat 0%nat k)
                    (bench_initial env_first_times_out cli [qa] world0))
      (seq 0 8).

Lemma lone_failure_step (s : Bench) (i : nat) :
  In s lone_failure_states ->
  In (step env_first_times_out 1 s i) lone_failure_states.
Proof.
  intros Hin. vm_compute in Hin.
  repeat (destruct Hin as [<- | Hin]);
    try contradiction;
    (destruct i as [| [| j]];
     vm_compute; repeat (first [left; reflexivity | right])).
Qed.

Lemma lone_failure_run (sched : list nat) (s : Bench) :
  In s lone_failure_states ->
  In (run env_first_times_out 1 sched s) lone_failure_states.
Proof.
  revert s. induction sched as [| i sched IH]; intros s H.
  - exact H.
  - cbn [run fold_left]. apply IH, lone_failure_step, H.
Qed.

Lemma count_zero (P : Query * pc -> bool) (l : list (Query * pc)) :
  count P l = 0 -> Forall (fun g => P g = false) l.
Proof.
  induction l as [| g l IH]; intros H; [constructor |].
  rewrite count_cons in H. pose proof (count_nonneg P l).
  destruct (P g) eqn:E; cbn [b2z] in H; [lia |].
  constructor; [exact E | apply IH; lia].
Qed.

Lemma count_positive (P : Query * pc -> bool) (l : list (Query * pc)) :
  0 < count P l -> exists g, In g l /\ P g = true.
Proof.
  induction l as [| g l IH]; intros H; [cbn in H; lia |].
  rewrite count_cons in H.
  destruct (P g) eqn:E.
  - exists g. split; [left; reflexivity | exact E].
  - cbn [b2z] in H. destruct (IH ltac:(lia)) as [g' [Hin Hg']].
    exists g'. split; [right; exact Hin | exact Hg'].
Qed.

(** Whatever the batch and the schedule: when [benchmark] returns
    statistics whose error list is not empty, one of its goroutines has
    completed by a panic that has not yet reached the top of its stack;
    the process is about to end. *)
Lemma returned_errors_announce_crash
    (env : Env) (capacity : Z) (c : Client) (queries : list Query)
    (w : World) (sched : list nat) (stats : Stats) (c' : Client) (w' : World) :
  benchmark env capacity c queries w sched = BenchReturned stats c' w' ->
  Errors stats <> [] ->
  exists i q p,
    nth_error (b_goroutines (run env capacity sched
                               (bench_initial env c queries w))) i
    = Some (q, Finished (Some p)).
Proof.
  unfold benchmark, bench_start.
  destruct (Z.ltb_spec capacity 0) as [| Hcap]; [discriminate |].
  pose proof (run_invariant env capacity _ sched _
                (start_invariant env capacity c queries w Hcap))
    as [_ _ Hw _ He].
  set (s := run env capacity sched (bench_initial env c queries w)) in *.
  unfold bench_finish, time_Now.
  destruct (b_crashed s); [discriminate |].
  destruct (Z.eqb_spec (b_wg s) 0) as [Hwg |]; [| discriminate].
  destruct (getQueriesStats (b_queryList s)); [| discriminate].
  intros H. injection H as <- _ _. cbn [Errors].
  intros Herr.
  assert (Hpos : 0 < count panicking (b_goroutines s)).
  { destruct (b_errorList s); [contradiction | cbn [List.length] in He; lia]. }
  destruct (count_positive _ _ Hpos) as [[q p] [Hin Hp]].
  rewrite Hwg in Hw. symmetry in Hw. apply count_zero in Hw.
  rewrite Forall_forall in Hw. specialize (Hw _ Hin).
  destruct p as [| | oc | r | p | p | p]; try discriminate.
  destruct p as [p |]; [| discriminate].
  destruct (In_nth_error _ _ Hin) as [i Hi].
  exists i, q, p. exact Hi.
Qed.

(** The second request fails in transport; the others succeed. *)
Definition env_second_times_out : Env :=
  {| reply := fun k _ =>
       match k with
       | S O => (None, Some (ErrTransport "context deadline exceeded"))
       | _ => (Some {| StatusCode := 200 |}, None)
       end;
     now := fun k => Z.of_nat k * time_Millisecond;
     zone_offset := fun _ => 0;
     open_file := fun _ => None |}.

(** The one way a batch with a failure comes back: the failing goroutine
    is the last to run its [wg.Add(-1)], and the main goroutine gets
    through [wg.Wait()] and the statistics before the panic of that
    goroutine ends the process.  One more step of the goroutine and the
    process is gone. *)
Example failed_query_race :
  (exists stats c' w',
      benchmark env_second_times_out 2 cli [qa; qb] world0
                (repeat 0%nat 7 ++ repeat 1%nat 6)%list
      = BenchReturned stats c' w'
      /\ Processed stats = 1
      /\ Errors stats
         = [ErrQuery qb (ErrSending (ErrTransport "context deadline exceeded"))])
  /\ benchmark env_second_times_out 2 cli [qa; qb] world0
                (repeat 0%nat 7 ++ repeat 1%nat 7)%list
     = BenchCrashed NilDereference.
Proof.
  split; [| vm_compute; reflexivity].
  do 3 eexists. split; [vm_compute; reflexivity |].
  split; reflexivity.
Qed.

(** C2.  A batch whose only query times out never returns statistics,
    whatever the schedule; and in a batch of two queries where the first
    request fails (in transport, or with status 500) and the second
    succeeds, run one goroutine after the other, the failure is appended
    to the error list and the goroutine then panics on [resp.StatusCode]
    with a nil [resp], which ends the process. *)
Theorem failed_query_aborts_batch :
  (forall (sched : list nat) stats c' w',
      benchmark env_first_times_out 1 cli [qa] world0 sched
      <> BenchReturned stats c' w')
  /\ benchmark env_first_times_out 2 cli [qa; qb] world0 one_after_the_other
     = BenchCrashed NilDereference
  /\ benchmark env_first_status_500 2 cli [qa; qb] world0 one_after_the_other
     = BenchCrashed NilDereference
  /\ b_errorList (run env_first_times_out 2 (repeat 0%nat 4)
                    (bench_initial env_first_times_out cli [qa; qb] world0))
     = [ErrQuery qa (ErrSending (ErrTransport "context deadline exceeded"))].
Proof.
  split; [| repeat split; vm_compute; reflexivity].
  intros sched stats c' w'. unfold benchmark, bench_start.
  change (1 <? 0) with false. cbv iota.
  assert (Hin : In (run env_first_times_out 1 sched
                      (bench_initial env_first_times_out cli [qa] world0))
                   lone_failure_states).
  { apply lone_failure_run. left. reflexivity. }
  remember (run env_first_times_out 1 sched
              (bench_initial env_first_times_out cli [qa] world0)) as s eqn:Es.
  clear Es. vm_compute in Hin.
  repeat (destruct Hin as [<- | Hin]); try contradiction;
    vm_compute; discriminate.
Qed.

End DispatcherClaims.

(** ** Startup: flags and the input file *)

Module StartupClaims.

Import DispatcherClaims Tests.

(** With a capacity below one no goroutine ever gets past its send. *)
Lemma run_blocked (env : Env) (capacity : Z) (sched : list nat) (s : Bench) :
  capacity <= 0 -> b_workers s = 0 ->
  Forall (fun g => snd g = Pending) (b_goroutines s) ->
  run env capacity sched s = s.
Proof.
  intros Hcap Hw Hall.
  induction sched as [| i sched IH]; [reflexivity |].
  cbn [run fold_left]. unfold step at 2, goroutine_step.
  destruct (b_crashed s); [exact IH |].
  destruct (nth_error (b_goroutines s) i) as [[q p] |] eqn:E; [| exact IH].
  rewrite Forall_forall in Hall.
  specialize (Hall _ (nth_error_In _ _ E)). cbn [snd] in Hall. subst p.
  destruct (Z.ltb_spec (b_workers s) capacity); [lia | exact IH].
Qed.

Lemma initial_all_pending (env : Env) (c : Client) (queries : list Query)
    (w : World) :
  b_workers (bench_initial env c queries w) = 0
  /\ Forall (fun g => snd g = Pending)
            (b_goroutines (bench_initial env c queries w)).
Proof.
  unfold bench_initial, time_Now. cbn [b_workers b_goroutines].
  split; [reflexivity |].
  induction queries; cbn [map]; constructor; [reflexivity | assumption].
Qed.

Lemma benchmark_without_permits (env : Env) (capacity : Z) (c : Client)
    (queries : list Query) (w : World) (sched : list nat) :
  capacity <= 0 ->
  run env capacity sched (bench_initial env c queries w)
  = bench_initial env c queries w
  /\ forall stats c' w',
      benchmark env capacity c queries w sched <> BenchReturned stats c' w'.
Proof.
  intros Hcap.
  destruct (initial_all_pending env c queries w) as [Hw Hall].
  assert (Hrun : run env capacity sched (bench_initial env c queries w)
                 = bench_initial env c queries w)
    by (apply run_blocked; assumption).
  split; [exact Hrun |].
  intros stats c' w'. unfold benchmark, bench_start.
  destruct (capacity <? 0); [discriminate |].
  rewrite Hrun. unfold bench_finish, bench_initial, time_Now.
  cbn [b_crashed b_wg b_queryList].
  destruct (Z.eqb_spec (Z.of_nat (List.length queries)) 0); discriminate.
Qed.

(** [parseFlags] returns no other error than the one for an empty file
    path. *)
Lemma parseFlags_error (int_value : string -> option Z)
    (args : list string) (e : error) :
  parseFlags int_value args = Return (inl e) ->
  e = ErrRequiredInput
  /\ exists cfg,
      flag_Parse int_value (skipn 2 args) None flag_defaults = inr cfg
      /\ Filepath cfg = "".
Proof.
  unfold parseFlags.
  destruct (_ <- index args 0 ;; index args 1) as [sub | p];
    [| discriminate].
  destruct (String.eqb sub "benchmark"); [| discriminate].
  destruct (flag_Parse int_value (skipn 2 args) None flag_defaults)
    as [[|] | cfg]; try discriminate.
  destruct (String.eqb (Filepath cfg) "") eqn:F; intros H; inversion H.
  split; [reflexivity |]. exists cfg. split; [reflexivity |].
  apply String.eqb_eq. exact F.
Qed.

(** With the subcommand in place, flags that parse and a file path that
    is not empty, [parseFlags] returns the configuration as parsed. *)
Lemma parseFlags_accepts (int_value : string -> option Z)
    (args : list string) (cfg : Config) :
  nth_error args 1 = Some "benchmark" ->
  flag_Parse int_value (skipn 2 args) None flag_defaults = inr cfg ->
  Filepath cfg <> "" ->
  parseFlags int_value args = Return (inr cfg).
Proof.
  intros Hsub Hparse Hpath.
  destruct args as [| a0 [| a1 rest]]; try discriminate.
  change (Some a1 = Some "benchmark") in Hsub. injection Hsub as ->.
  unfold parseFlags.
  destruct (StatsFacts.index_in_range (a0 :: "benchmark" :: rest) 0)
    as [x0 [_ I0]]; [cbn [List.length]; lia |].
  destruct (StatsFacts.index_in_range (a0 :: "benchmark" :: rest) 1)
    as [x1 [N1 I1]]; [cbn [List.length]; lia |].
  change (Some "benchmark" = Some x1) in N1. injection N1 as <-.
  rewrite I0. cbn [bind]. rewrite I1.
  change ("benchmark" =? "benchmark")%string with true. cbv iota.
  rewrite Hparse.
  destruct (String.eqb_spec (Filepath cfg) ""); [contradiction | reflexivity].
Qed.

(** C6 (as amended).  The worker count is not checked at startup.  For
    every integer [w] that the [-workers] flag carries, zero and negative
    ones included, [parseFlags] returns a configuration with
    [Workers = w] and no error, and [main] calls [benchmark] with that
    count.  With a count below one [benchmark] then sends no request and
    never returns statistics.  With a negative count the creation of the
    channel panics, whatever the batch and the schedule.  With a count
    of zero the channel is created and no goroutine gets past its send
    on it: no request is sent, and [benchmark] stays in [wg.Wait()] when
    the batch is not empty and panics in [getQueriesStats] when it is.
    The only error that [parseFlags] returns, on any command line, is the
    one for an empty file path: when the subcommand is there, the flags
    parse and the file path is not empty, it returns the configuration
    whatever its worker count is. *)
Theorem worker_count_is_not_validated
    (int_value : string -> option Z)
    (csv_ReadAll : string -> option (list (list string)))
    (env : Env) (path text contents : string) (w : Z)
    (queries : list Query) (sched : list nat) :
  path <> "" ->
  int_value text = Some w ->
  open_file env path = Some contents ->
  readFile csv_ReadAll contents = Return (queries, None) ->
  let os_Args := ["pqlbench"; "benchmark"; "-filepath"; path; "-workers"; text] in
  let client := newHTTPClient "http://localhost:9201" in
  parseFlags int_value os_Args
  = Return (inr (mkConfig path w "http://localhost:9201"))
  /\ main int_value csv_ReadAll env os_Args sched
     = MainDispatched client queries w None
         (benchmark env w client queries world0 sched)
  /\ (w <= 0 ->
      run env w sched (bench_initial env client queries world0)
      = bench_initial env client queries world0
      /\ forall stats c' w',
          benchmark env w client queries world0 sched
          <> BenchReturned stats c' w')
  /\ (w < 0 ->
      bench_start env w client queries world0 = Panic MakechanSizeOutOfRange
      /\ benchmark env w client queries world0 sched
         = BenchCrashed MakechanSizeOutOfRange
      /\ main int_value csv_ReadAll env os_Args sched
         = MainDispatched client queries w None
             (BenchCrashed MakechanSizeOutOfRange))
  /\ (w = 0 ->
      bench_start env w client queries world0
      = Ok (bench_initial env client queries world0)
      /\ requests
           (b_world (run env w sched (bench_initial env client queries world0)))
         = []
      /\ benchmark env w client queries world0 sched
         = match queries with
           | [] => BenchCrashed (IndexOutOfRange (-1) 0)
           | _ :: _ => BenchWaiting
           end)
  /\ (forall args e,
         parseFlags int_value args = Return (inl e) ->
         e = ErrRequiredInput
         /\ exists cfg,
             flag_Parse int_value (skipn 2 args) None flag_defaults = inr cfg
             /\ Filepath cfg = "")
  /\ (forall args cfg,
         nth_error args 1 = Some "benchmark" ->
         flag_Parse int_value (skipn 2 args) None flag_defaults = inr cfg ->
         Filepath cfg <> "" ->
         parseFlags int_value args = Return (inr cfg)).
Proof.
  intros Hpath Hint Hopen Hread os_Args client.
  assert (Hflags : parseFlags int_value os_Args
                   = Return (inr (mkConfig path w "http://localhost:9201"))).
  { unfold parseFlags, os_Args. cbn. rewrite Hint. cbn.
    destruct path; [contradiction | reflexivity]. }
  assert (Hmain : main int_value csv_ReadAll env os_Args sched
                  = MainDispatched client queries w None
                      (benchmark env w client queries world0 sched)).
  { unfold main. rewrite Hflags.
    change (Z.of_nat (List.length os_Args) <? 2) with false. cbv iota.
    cbn [Filepath Workers cfg_URL]. rewrite Hopen, Hread. reflexivity. }
  split; [exact Hflags |]. split; [exact Hmain |].
  split; [| split; [| split; [| split]]].
  - intros Hw. apply benchmark_without_permits. exact Hw.
  - intros Hw.
    assert (Hstart : bench_start env w client queries world0
                     = Panic MakechanSizeOutOfRange).
    { unfold bench_start. destruct (Z.ltb_spec w 0); [reflexivity | lia]. }
    assert (Hbench : benchmark env w client queries world0 sched
                     = BenchCrashed MakechanSizeOutOfRange).
    { unfold benchmark. rewrite Hstart. reflexivity. }
    split; [exact Hstart |]. split; [exact Hbench |].
    rewrite Hmain, Hbench. reflexivity.
  - intros Hw.
    destruct (benchmark_without_permits env w client queries world0 sched
                ltac:(lia)) as [Hrun _].
    assert (Hstart : bench_start env w client queries world0
                     = Ok (bench_initial env client queries world0)).
    { unfold bench_start. destruct (Z.ltb_spec w 0); [lia | reflexivity]. }
    split; [exact Hstart |]. split.
    + rewrite Hrun. reflexivity.
    + unfold benchmark. rewrite Hstart, Hrun.
      destruct queries as [| q queries']; [reflexivity |].
      unfold bench_finish, bench_initial, time_Now.
      cbn [b_crashed b_wg].
      destruct (Z.eqb_spec (Z.of_nat (List.length (q :: queries'))) 0)
        as [E |]; [cbn [List.length] in E; lia | reflexivity].
  - intros args e. apply parseFlags_error.
  - intros args cfg. apply parseFlags_accepts.
Qed.

(** A file with one well-formed record, read by the plain reader. *)
Definition env_one_query : Env :=
  {| reply := fun _ _ => (Some {| StatusCode := 200 |}, None);
     now := fun k => Z.of_nat k * time_Millisecond;
     zone_offset := fun _ => 0;
     open_file := fun path =>
       if String.eqb path "queries.csv"
       then Some "up|1597056698698|1597059548699|15000"
       else None |}.

Lemma worker_count_is_not_validated_witness :
  "queries.csv" <> ""
  /\ Tests.decimal "0" = Some 0
  /\ parseFlags Tests.decimal
       ["pqlbench"; "benchmark"; "-filepath"; "queries.csv"; "-workers"; "0"]
     = Return (inr (mkConfig "queries.csv" 0 "http://localhost:9201")).
Proof.
  assert (H1 : "queries.csv" <> "") by discriminate.
  assert (H2 : Tests.decimal "0" = Some 0) by reflexivity.
  assert (H3 : open_file env_one_query "queries.csv"
               = Some "up|1597056698698|1597059548699|15000")
    by reflexivity.
  assert (H4 : readFile csv_plain "up|1597056698698|1597059548699|15000"
               = Return ([qa], None))
    by (vm_compute; reflexivity).
  split; [exact H1 |]. split; [exact H2 |].
  exact (proj1 (worker_count_is_not_validated Tests.decimal csv_plain
                  env_one_query "queries.csv" "0" _ 0 [qa] [] H1 H2 H3 H4)).
Defined.

(** [-workers 0] is accepted, and [main] starts the dispatcher with it. *)
Lemma worker_count_is_not_validated_counterexample :
  parseFlags Tests.decimal
    ["pqlbench"; "benchmark"; "-filepath"; "queries.csv"; "-workers"; "0"]
  = Return (inr (mkConfig "queries.csv" 0 "http://localhost:9201"))
  /\ main Tests.decimal csv_plain env_one_query
       ["pqlbench"; "benchmark"; "-filepath"; "queries.csv"; "-workers"; "0"]
       []
     = MainDispatched cli [qa] 0 None BenchWaiting.
Proof. split; vm_compute; reflexivity. Qed.

(** [readFile] hands back no queries together with an error. *)
Lemma parse_lines_error (records : list (list string))
    (acc queries : list Query) (e : error) :
  parse_lines records acc = Ok (queries, Some e) -> queries = [].
Proof.
  revert acc. induction records as [| line records IH]; intros acc H.
  - discriminate.
  - cbn [parse_lines] in H.
    destruct (parse_line line) as [[e' | q] | p]; cbn [bind] in H.
    + injection H as <- _. reflexivity.
    + eapply IH. exact H.
    + discriminate.
Qed.

(** [main] goes on after an error of [readFile]. *)
Lemma main_after_read_error
    (int_value : string -> option Z)
    (csv_ReadAll : string -> option (list (list string)))
    (env : Env) (os_Args : list string) (cfg : Config)
    (contents : string) (queries : list Query) (e : error)
    (sched : list nat) :
  parseFlags int_value os_Args = Return (inr cfg) ->
  open_file env (Filepath cfg) = Some contents ->
  readFile csv_ReadAll contents = Return (queries, Some e) ->
  queries = []
  /\ main int_value csv_ReadAll env os_Args sched
     = MainDispatched (newHTTPClient (cfg_URL cfg)) [] (Workers cfg) (Some e)
         (benchmark env (Workers cfg) (newHTTPClient (cfg_URL cfg)) []
                    world0 sched).
Proof.
  intros Hflags Hopen Hread.
  assert (Hq : queries = []).
  { unfold readFile in Hread.
    destruct (csv_ReadAll contents) as [records |]; [| discriminate].
    destruct (parse_lines records []) as [[qs err] | p] eqn:E;
      cbn [run_outcome] in Hread; [| discriminate].
    injection Hread as -> ->. eapply parse_lines_error. exact E. }
  split; [exact Hq |]. subst queries.
  unfold main.
  assert (Hlen : (Z.of_nat (List.length os_Args) <? 2) = false).
  { unfold parseFlags in Hflags.
    destruct os_Args as [| a0 [| a1 rest]];
      [discriminate | discriminate |].
    cbn [List.length]. apply Z.ltb_ge. lia. }
  rewrite Hlen, Hflags, Hopen, Hread. reflexivity.
Qed.

(** A file whose second record has a start time that is not a number. *)
Definition env_malformed : Env :=
  {| reply := fun _ _ => (Some {| StatusCode := 200 |}, None);
     now := fun k => Z.of_nat k * time_Millisecond;
     zone_offset := fun _ => 0;
     open_file := fun path =>
       if String.eqb path "queries.csv"
       then Some "up|1597056698698|1597059548699|15000
rate|soon|1597058548699|60000"
       else None |}.

(** C7.  A file with a malformed record: [readFile] returns the error,
    [main] prints it and goes on, and calls [benchmark] on the empty list
    in place of the batch; [benchmark] then panics in [getQueriesStats].
    (The two error paths before it in [main] call [os.Exit(1)].) *)
Theorem malformed_record_reaches_dispatcher :
  readFile csv_plain "up|1597056698698|1597059548699|15000
rate|soon|1597058548699|60000"
  = Return ([], Some (ErrSyntax "ParseInt" "soon"))
  /\ forall sched : list nat,
      main Tests.decimal csv_plain env_malformed
        ["pqlbench"; "benchmark"; "-filepath"; "queries.csv"] sched
      = MainDispatched cli [] 1 (Some (ErrSyntax "ParseInt" "soon"))
          (BenchCrashed (IndexOutOfRange (-1) 0)).
Proof.
  assert (Hread : readFile csv_plain "up|1597056698698|1597059548699|15000
rate|soon|1597058548699|60000"
                  = Return ([], Some (ErrSyntax "ParseInt" "soon")))
    by (vm_compute; reflexivity).
  split; [exact Hread |].
  intros sched.
  destruct (main_after_read_error Tests.decimal csv_plain env_malformed
              ["pqlbench"; "benchmark"; "-filepath"; "queries.csv"]
              (mkConfig "queries.csv" 1 "http://localhost:9201")
              _ [] _ sched eq_refl eq_refl Hread) as [_ Hmain].
  rewrite Hmain. cbn [cfg_URL Workers]. fold cli. f_equal.
  unfold benchmark, bench_start. change (1 <? 0) with false. cbv iota.
  rewrite run_empty by reflexivity. reflexivity.
Qed.

End StartupClaims.
